(** * extract_utterances_from_wavs.py: utterance extraction from time-aligned transcripts

    A shallow embedding of the script [extract_utterances_from_wavs.py] and
    of the parts of Python's [wave], [csv] and [pathlib] modules it calls.

    Conventions of the model.
    - In the model of the run, time stamps are exact rationals ([Q]).  The
      script computes with binary floating point; rounding error,
      infinities and NaN are outside that model, and every concrete input
      of a run below is chosen away from the places where rounding could
      change a frame number.
    - What is said about the frame offsets themselves is said of
      [extract_audio_binary64], where the times are binary64 numbers and
      the products of lines 56-57 are the rounded products of the machine.
    - The program state is threaded explicitly: the csv reader shared by
      the two nested [for] statements, the files written under
      [audio_excerpts], the rows handed to the csv writer of [output.tsv],
      and a record of the calls of [extract_audio].
    - A raised exception is a result [Raise e]; the state reached when it
      was raised is kept, as the files written so far stay on disk. *)

From Stdlib Require Import List String Ascii Bool Arith ZArith QArith Qround Lia.
From Stdlib Require Import DecimalString DecimalNat Lqa FinFun.
From Stdlib Require Floats.PrimFloat Floats.SpecFloat Floats.FloatOps Uint63.
Import ListNotations.

Close Scope Q_scope.
Local Open Scope string_scope.
Local Open Scope list_scope.

(** String concatenation, Python's [+] on [str] *)
Infix "+:+" := String.append (at level 60, right associativity).

(** ** Exceptions and results *)

Inductive exn : Type :=
| StopIteration       (* next(reader) on a transcript without any row *)
| IndexError          (* row[i] on a row with too few columns *)
| ValueError          (* float(s) on text that is not a number; int(x) on nan *)
| OverflowError       (* int(x) on an infinity *)
| FileNotFoundError   (* open / wave.open on a name that is not in the directory *)
| UnicodeDecodeError  (* reading a waveform as text *)
| wave_Error.         (* wave.Error: not a RIFF file, or setpos out of range *)

Inductive result (A : Type) : Type :=
| Ok (a : A)
| Raise (e : exn).
Arguments Ok {A} a.
Arguments Raise {A} e.

Definition is_ok {A} (r : result A) : bool :=
  match r with Ok _ => true | Raise _ => false end.

(** ** Waveforms, as the [wave] module presents them *)

(** One frame is the packed value of its [nchannels * sampwidth] bytes. *)
Definition frame := Z.

Record waveform : Type := {
  nchannels : Z;
  sampwidth : Z;
  framerate : Z;
  comptype : string;
  compname : string;
  frames : list frame
}.

Definition nframes (w : waveform) : Z := Z.of_nat (List.length (frames w)).

(** [Wave_read.setpos]: raises unless [0 <= pos <= nframes]. *)
Definition setpos (w : waveform) (pos : Z) : result Z :=
  if ((pos <? 0) || (nframes w <? pos))%Z then Raise wave_Error else Ok pos.

(** [Wave_read.readframes] at read position [pos]: nothing for a count of
    zero; otherwise the chunk reader hands out at most what is left, and
    everything that is left when the count is negative. *)
Definition readframes (w : waveform) (pos n : Z) : list frame :=
  if (n =? 0)%Z then []
  else
    let rest := skipn (Z.to_nat pos) (frames w) in
    if (n <? 0)%Z then rest else firstn (Z.to_nat n) rest.

(** [dest_wav.setparams(params); dest_wav.writeframes(chunk_data)]: the
    parameters of the source with the frames just read. *)
Definition with_frames (params : waveform) (chunk_data : list frame) : waveform :=
  {| nchannels := nchannels params;
     sampwidth := sampwidth params;
     framerate := framerate params;
     comptype := comptype params;
     compname := compname params;
     frames := chunk_data |}.

(** [int(x)] on a number: truncation toward zero. *)
Definition py_int (x : Q) : Z := Z.quot (Qnum x) (Zpos (Qden x)).

(** [int(fps * t)], the frame offset of time [t]. *)
Definition frame_at (fps : Z) (t : Q) : Z := py_int (Qmult (inject_Z fps) t).

(** ** Frame offsets in binary64, the numbers of the script *)

Definition binary64 : Set := PrimFloat.float.

(** The conversion of an [int] in [int * float]; exact for the frame rates
    a RIFF header can hold, which are below [2 ^ 32]. *)
Definition binary64_of_int (n : Z) : binary64 := PrimFloat.of_uint63 (Uint63.of_Z n).

(** The number a binary64 stands for; none for nan and the infinities. *)
Definition binary64_value (x : binary64) : option Q :=
  match FloatOps.Prim2SF x with
  | SpecFloat.S754_zero _ => Some (inject_Z 0)
  | SpecFloat.S754_finite s m e =>
      let n := if s then Zneg m else Zpos m in
      Some (if (0 <=? e)%Z then inject_Z (n * 2 ^ e)
            else Qmake n (Pos.pow 2 (Z.to_pos (- e))))
  | _ => None
  end.

(** [int(x)] on a float: its value truncated toward zero; ValueError on
    nan, OverflowError on an infinity. *)
Definition int_of_binary64 (x : binary64) : result Z :=
  match binary64_value x with
  | Some q => Ok (py_int q)
  | None => if PrimFloat.is_nan x then Raise ValueError else Raise OverflowError
  end.

(** [int(fps * t)] of lines 56-57: the product is the binary64 product. *)
Definition frame_at_binary64 (fps : Z) (t : binary64) : result Z :=
  int_of_binary64 (PrimFloat.mul (binary64_of_int fps) t).

(** [x / 1000] of line 72 on an integer number of milliseconds. *)
Definition binary64_seconds (ms : Z) : binary64 :=
  PrimFloat.div (binary64_of_int ms) (binary64_of_int 1000).

(** ** The directory [audio_data] *)

Definition row := list string.

Inductive file : Type :=
| Text (rows : list row)      (* a text file, as csv.reader splits it *)
| Wave (w : waveform).        (* a RIFF/WAVE file *)

Definition directory := list (string * file).

Fixpoint lookup (name : string) (d : directory) : option file :=
  match d with
  | [] => None
  | (n, f) :: d' => if String.eqb n name then Some f else lookup name d'
  end.

(** [wave.open(str(source_file), "rb")] *)
Definition wave_open (d : directory) (name : string) : result waveform :=
  match lookup name d with
  | None => Raise FileNotFoundError
  | Some (Text _) => Raise wave_Error
  | Some (Wave w) => Ok w
  end.

(** What [extract_audio] computes from an opened source before it opens
    the destination (lines 54-60): the clip, or the exception of [setpos]. *)
Definition cut (source_wav : waveform) (start_time end_time : Q) : result waveform :=
  let fps := framerate source_wav in
  let start_frame := frame_at fps start_time in
  let end_frame := frame_at fps end_time in
  let n_frames := (end_frame - start_frame)%Z in
  match setpos source_wav start_frame with
  | Raise e => Raise e
  | Ok pos => Ok (with_frames source_wav (readframes source_wav pos n_frames))
  end.

Definition slice (d : directory) (source_file : string) (start_time end_time : Q)
  : result waveform :=
  match wave_open d source_file with
  | Raise e => Raise e
  | Ok source_wav => cut source_wav start_time end_time
  end.

(** The frames of the clip a slice came to; none when it raised. *)
Definition frames_of (r : result waveform) : list frame :=
  match r with
  | Ok clip => frames clip
  | Raise _ => []
  end.

(** ** Strings: [str.lower], [in], [pathlib] suffixes, [os.path.join] *)

(** [str.lower] on the ASCII letters; other characters are kept. *)
Definition lower_ascii (c : ascii) : ascii :=
  let n := nat_of_ascii c in
  if (65 <=? n)%nat && (n <=? 90)%nat then ascii_of_nat (n + 32) else c.

Fixpoint lower (s : string) : string :=
  match s with
  | EmptyString => EmptyString
  | String c s' => String (lower_ascii c) (lower s')
  end.

(** [word in text]: [word] occurs in [text] as a substring. *)
Fixpoint contains (word text : string) : bool :=
  if String.prefix word text then true
  else match text with
       | EmptyString => false
       | String _ text' => contains word text'
       end.

(** [str.isspace] on the ASCII characters: tab to carriage return, the
    four separators 28 to 31, and the blank. *)
Definition is_space (c : ascii) : bool :=
  let n := nat_of_ascii c in
  ((9 <=? n)%nat && (n <=? 13)%nat) || ((28 <=? n)%nat && (n <=? 32)%nat).

(** [line.rstrip()]: trailing white space removed. *)
Fixpoint rstrip (line : string) : string :=
  match line with
  | EmptyString => EmptyString
  | String c line' =>
      match rstrip line' with
      | EmptyString => if is_space c then EmptyString else String c EmptyString
      | kept => String c kept
      end
  end.

(** A string of white space only; the empty string is one. *)
Fixpoint all_space (s : string) : bool :=
  match s with
  | EmptyString => true
  | String c s' => is_space c && all_space s'
  end.

Definition newline : ascii := "010"%char.

(** [file.readlines()] on the text of a file opened in text mode, where
    every line end reads as one line feed: the lines, each with the line
    feed that ends it. *)
Fixpoint readlines (content : string) : list string :=
  match content with
  | EmptyString => []
  | String c content' =>
      if Ascii.eqb c newline then String c EmptyString :: readlines content'
      else match readlines content' with
           | [] => [String c EmptyString]
           | line :: lines => String c line :: lines
           end
  end.

(** Lines 37-42: the target words, from the text of [word_list.txt]. *)
Definition lines (word_list_txt : string) : list string :=
  map rstrip (readlines word_list_txt).

(** An ASCII capital letter *)
Definition is_upper (c : ascii) : bool :=
  let n := nat_of_ascii c in (65 <=? n)%nat && (n <=? 90)%nat.

Fixpoint has_upper (s : string) : bool :=
  match s with
  | EmptyString => false
  | String c s' => is_upper c || has_upper s'
  end.

(** [name.rfind('.')] *)
Fixpoint rfind_dot (name : string) : option nat :=
  match name with
  | EmptyString => None
  | String c name' =>
      match rfind_dot name' with
      | Some i => Some (S i)
      | None => if Ascii.eqb c "." then Some 0%nat else None
      end
  end.

(** [PurePath.suffix] and [PurePath.stem] of a final path component *)
Definition suffix (name : string) : string :=
  match rfind_dot name with
  | Some i =>
      if (0 <? i)%nat && (i <? String.length name - 1)%nat
      then String.substring i (String.length name - i) name
      else ""
  | None => ""
  end.

Definition stem (name : string) : string :=
  match rfind_dot name with
  | Some i =>
      if (0 <? i)%nat && (i <? String.length name - 1)%nat
      then String.substring 0 i name
      else name
  | None => name
  end.

Fixpoint ends_with_slash (a : string) : bool :=
  match a with
  | EmptyString => false
  | String c EmptyString => Ascii.eqb c "/"
  | String _ a' => ends_with_slash a'
  end.

(** [os.path.join(a, b)] on a POSIX system *)
Definition os_path_join (a b : string) : string :=
  if String.prefix "/" b then b
  else if String.eqb a "" || ends_with_slash a then a +:+ b
  else a +:+ "/" +:+ b.

(** [str(n)] of a non-negative integer *)
Definition str (n : nat) : string := NilZero.string_of_uint (Nat.to_uint n).

(** ** Program state and the monad of the script *)

(** One row handed to [writer.writerow]: strings and numbers. *)
Inductive cell : Type :=
| Str (s : string)
| Num (q : Q).

(** The arguments of one call of [extract_audio]. *)
Record call : Type := {
  source_file : string;
  start_time : Q;
  end_time : Q;
  dest_file : string
}.

Record state : Type := {
  reader : list row;                    (* rows the open csv reader has not yet handed out *)
  excerpts : list (string * waveform);  (* files written under audio_excerpts, oldest first *)
  output_tsv : list (list cell);        (* rows written to output.tsv, oldest first *)
  calls : list call                     (* calls of extract_audio made so far, oldest first *)
}.

Definition set_reader (rows : list row) (s : state) : state :=
  {| reader := rows; excerpts := excerpts s; output_tsv := output_tsv s; calls := calls s |}.

Definition add_excerpt (name : string) (w : waveform) (s : state) : state :=
  {| reader := reader s; excerpts := excerpts s ++ [(name, w)];
     output_tsv := output_tsv s; calls := calls s |}.

Definition add_row (r : list cell) (s : state) : state :=
  {| reader := reader s; excerpts := excerpts s;
     output_tsv := output_tsv s ++ [r]; calls := calls s |}.

Definition add_call (c : call) (s : state) : state :=
  {| reader := reader s; excerpts := excerpts s;
     output_tsv := output_tsv s; calls := calls s ++ [c] |}.

Definition M (A : Type) : Type := state -> result A * state.

Definition ret {A} (a : A) : M A := fun s => (Ok a, s).

Definition raise {A} (e : exn) : M A := fun s => (Raise e, s).

Definition bind {A B} (c : M A) (k : A -> M B) : M B :=
  fun s =>
    match c s with
    | (Ok a, s') => k a s'
    | (Raise e, s') => (Raise e, s')
    end.

(** [try: c except: handler] with a bare [except]. *)
Definition try_except {A} (c handler : M A) : M A :=
  fun s =>
    match c s with
    | (Ok a, s') => (Ok a, s')
    | (Raise _, s') => handler s'
    end.

Definition lift {A} (r : result A) : M A := fun s => (r, s).

Definition modify (f : state -> state) : M unit := fun s => (Ok tt, f s).

Declare Scope script_scope.
Delimit Scope script_scope with script.
Notation "x <- c1 ;; c2" := (bind c1 (fun x => c2))
  (at level 61, c1 at next level, right associativity) : script_scope.
Notation "c1 ;; c2" := (bind c1 (fun _ => c2))
  (at level 61, right associativity) : script_scope.
Local Open Scope script_scope.

(** [for x in l: unique_id = body(x, unique_id)] over a Python list *)
Fixpoint for_each {A} (l : list A) (body : A -> nat -> M nat) (unique_id : nat) : M nat :=
  match l with
  | [] => ret unique_id
  | x :: l' => unique_id' <- body x unique_id ;; for_each l' body unique_id'
  end.

(** [for row in reader: ...] over the csv reader of the state.  Every turn
    draws one row from the reader; the body may draw more.  [n] bounds the
    number of turns and is the number of unread rows on entry. *)
Fixpoint for_reader (n : nat) (body : row -> nat -> M nat) (unique_id : nat) : M nat :=
  match n with
  | O => ret unique_id
  | S n' =>
      fun s =>
        match reader s with
        | [] => (Ok unique_id, s)
        | r :: rest =>
            (unique_id' <- body r unique_id ;; for_reader n' body unique_id')
              (set_reader rest s)
        end
  end.

Definition for_row_in_reader (body : row -> nat -> M nat) (unique_id : nat) : M nat :=
  fun s => for_reader (List.length (reader s)) body unique_id s.

(** [next(reader)] *)
Definition next : M row :=
  fun s =>
    match reader s with
    | [] => (Raise StopIteration, s)
    | r :: rest => (Ok r, set_reader rest s)
    end.

(** [wave.open(dest_file, "wb")], [setparams], [writeframes] and the close
    at the end of the [with] block.  The parameters are those of a source
    that opened, taken to be ones [setparams] accepts. *)
Definition wave_write (dest_file : string) (params : waveform) (chunk_data : list frame)
  : M unit :=
  modify (add_excerpt dest_file (with_frames params chunk_data)).

(** [writer.writerow(r)] *)
Definition writerow (r : list cell) : M unit := modify (add_row r).

(** The state before the run: no open reader, nothing written. *)
Definition initial : state :=
  {| reader := []; excerpts := []; output_tsv := []; calls := [] |}.

(** ** Concrete inputs *)

(** A reading of [float] on plain decimal numerals: an optional sign,
    digits, and an optional fraction.  It is used for the concrete
    transcripts below only; the script itself is modelled for any reading
    of [float]. *)
Fixpoint digits_value (s : string) (acc : Z) : option Z :=
  match s with
  | EmptyString => Some acc
  | String c s' =>
      let n := nat_of_ascii c in
      if (48 <=? n)%nat && (n <=? 57)%nat
      then digits_value s' (10 * acc + Z.of_nat (n - 48))%Z
      else None
  end.

Fixpoint split_dot (s : string) : string * option string :=
  match s with
  | EmptyString => (EmptyString, None)
  | String c s' =>
      if Ascii.eqb c "." then (EmptyString, Some s')
      else let '(a, b) := split_dot s' in (String c a, b)
  end.

Definition unsigned_decimal (s : string) : option Q :=
  let '(ip, fp) := split_dot s in
  let fp := match fp with Some f => f | None => EmptyString end in
  if (String.length ip + String.length fp =? 0)%nat then None
  else
    match digits_value ip 0%Z, digits_value fp 0%Z with
    | Some i, Some f =>
        let scale := Pos.pow 10 (Pos.of_nat (String.length fp)) in
        let scale := if (String.length fp =? 0)%nat then 1%positive else scale in
        Some (Qred (Qmake (i * Zpos scale + f) scale))
    | _, _ => None
    end.

Definition decimal (s : string) : option Q :=
  match s with
  | String "-" s' => option_map Qopp (unsigned_decimal s')
  | String "+" s' => unsigned_decimal s'
  | _ => unsigned_decimal s
  end.

(** A mono 16-bit waveform of [n] frames whose frame [i] holds [i]. *)
Definition ramp (fps : Z) (n : nat) : waveform :=
  {| nchannels := 1; sampwidth := 2; framerate := fps; comptype := "NONE";
     compname := "not compressed"; frames := map Z.of_nat (seq 0 n) |}.

(** Five seconds at 8000 frames per second. *)
Definition five_seconds : waveform := ramp 8000 (Z.to_nat 40000).

(** One second at 11025 frames per second. *)
Definition one_second : waveform := ramp 11025 (Z.to_nat 11025).

Definition tsv_header : row := ["start"; "end"; "text"].

Definition excerpts_dir : string := "/home/user/audio_excerpts".

(** One transcript of a header and one data row, with its waveform. *)
Definition one_row_dir : directory :=
  [("talk.tsv", Text [tsv_header; ["1000"; "2000"; "this is a test"]]);
   ("talk.wav", Wave five_seconds)].

(** One transcript whose two data rows both hold the word "test". *)
Definition both_rows_match_dir : directory :=
  [("talk.tsv", Text [tsv_header; ["0"; "900"; "test one"];
                      ["1000"; "2000"; "this is a test"]]);
   ("talk.wav", Wave five_seconds)].

(** A transcript without vocabulary words and without a waveform. *)
Definition lone_transcript_dir : directory :=
  [("talk.tsv", Text [tsv_header; ["0"; "900"; "hello"]; ["1000"; "2000"; "nothing here"]])].

(** Two transcripts of three rows each, with their waveforms. *)
Definition two_files_dir : directory :=
  [("a.tsv", Text [tsv_header; ["0"; "900"; "intro"]; ["1000"; "2000"; "this is a test"]]);
   ("a.wav", Wave five_seconds);
   ("b.tsv", Text [tsv_header; ["0"; "900"; "intro"]; ["2500"; "3000"; "Another TEST"]]);
   ("b.wav", Wave five_seconds)].

Section Script.

(** [float(s)] on the text of a column: [None] stands for ValueError. *)
Variable float : string -> option Q.

(** [str(AUDIO_EXCERPTS)], the directory of the clips *)
Variable AUDIO_EXCERPTS : string.

(** The target words read from [word_list.txt] *)
Variable STRINGS : list string.

(** The content of [PATH_TO_WAVS], in the order [iterdir] lists it *)
Variable audio_data : directory.

(** Lines 52-63.  The first step enters the call in [calls]; the script
    keeps no such record, it is kept for the statements about attempts. *)
Definition extract_audio (source_file : string) (start_time end_time : Q)
    (dest_file : string) : M unit :=
  modify (add_call {| source_file := source_file; start_time := start_time;
                      end_time := end_time; dest_file := dest_file |}) ;;
  source_wav <- lift (wave_open audio_data source_file) ;;
  let params := source_wav in
  let fps := framerate params in
  let start_frame := frame_at fps start_time in
  let end_frame := frame_at fps end_time in
  let n_frames := (end_frame - start_frame)%Z in
  pos <- lift (setpos source_wav start_frame) ;;
  let chunk_data := readframes source_wav pos n_frames in
  wave_write dest_file params chunk_data.

(** Lines 52-63 with the times as binary64 numbers, as the script has
    them; [extract_audio] above is the same with exact times, and with the
    record of the call. *)
Definition extract_audio_binary64 (source_file : string) (start_time end_time : binary64)
    (dest_file : string) : M unit :=
  source_wav <- lift (wave_open audio_data source_file) ;;
  let params := source_wav in
  let fps := framerate params in
  start_frame <- lift (frame_at_binary64 fps start_time) ;;
  end_frame <- lift (frame_at_binary64 fps end_time) ;;
  let n_frames := (end_frame - start_frame)%Z in
  pos <- lift (setpos source_wav start_frame) ;;
  let chunk_data := readframes source_wav pos n_frames in
  wave_write dest_file params chunk_data.

(** [float(row[0])/1000, float(row[1])/1000, row[2]], left to right *)
Definition seconds (ms : Q) : Q := Qred (Qdiv ms (inject_Z 1000)).

Definition column (r : row) (i : nat) : result string :=
  match nth_error r i with
  | Some c => Ok c
  | None => Raise IndexError
  end.

Definition float_column (r : row) (i : nat) : result Q :=
  match column r i with
  | Raise e => Raise e
  | Ok c => match float c with
            | Some x => Ok (seconds x)
            | None => Raise ValueError
            end
  end.

Definition parse_row (r : row) : result (Q * Q * string) :=
  match float_column r 0 with
  | Raise e => Raise e
  | Ok start_time =>
      match float_column r 1 with
      | Raise e => Raise e
      | Ok end_time =>
          match column r 2 with
          | Raise e => Raise e
          | Ok text => Ok (start_time, end_time, text)
          end
      end
  end.

Definition padding : Q := 2 # 10.

(** Lines 76-83: the statements run for a word found in a row. *)
Definition on_match (wav_filename : string) (start_time end_time : Q) (text word : string)
    (unique_id : nat) : M nat :=
  let dest_wav_filename :=
    os_path_join AUDIO_EXCERPTS ("chunk_" +:+ str unique_id +:+ ".wav") in
  try_except
    (extract_audio wav_filename (Qminus start_time padding) (Qplus end_time padding)
       dest_wav_filename)
    (extract_audio wav_filename start_time end_time dest_wav_filename) ;;
  writerow [Str dest_wav_filename; Str wav_filename; Str word;
            Num start_time; Num end_time; Str text] ;;
  ret (unique_id + 1)%nat.

(** Lines 72-83: the body of [for row in reader] in [search_tsv]. *)
Definition search_row (wav_filename : string) (r : row) (unique_id : nat) : M nat :=
  parsed <- lift (parse_row r) ;;
  let '(start_time, end_time, text) := parsed in
  for_each STRINGS
    (fun word unique_id =>
       if contains word (lower text)
       then on_match wav_filename start_time end_time text word unique_id
       else ret unique_id)
    unique_id.

(** Lines 70-84. *)
Definition search_tsv (wav_filename : string) (unique_id : nat) : M nat :=
  for_row_in_reader (search_row wav_filename) unique_id.

(** Lines 87-90. *)
Definition tsvs : list string :=
  filter (fun filename => String.eqb (suffix filename) ".tsv") (map fst audio_data).

(** [open(tsv_filename, "r", encoding="utf-8")] and [csv.reader].  An
    entry that holds a waveform is taken not to decode as text. *)
Definition open_reader (tsv_filename : string) : M unit :=
  match lookup tsv_filename audio_data with
  | None => raise FileNotFoundError
  | Some (Wave _) => raise UnicodeDecodeError
  | Some (Text rows) => modify (set_reader rows)
  end.

Definition header : list cell :=
  [Str "Identifier"; Str "Parent WAV"; Str "Word"; Str "Start Time"; Str "End Time";
   Str "Text"].

(** Lines 99-104: the body of [for tsv_filename in tsvs]. *)
Definition process_tsv (tsv_filename : string) (unique_id : nat) : M nat :=
  let wav_filename := stem tsv_filename +:+ ".wav" in
  open_reader tsv_filename ;;
  next ;;
  for_row_in_reader (fun _row unique_id => search_tsv wav_filename unique_id) unique_id.

(** Lines 94-104. The value is the final [unique_id]. *)
Definition main : M nat :=
  writerow header ;;
  for_each tsvs process_tsv 0%nat.


(** ** Vocabulary of the statements *)

(** The name of the clip with identifier [unique_id] (line 76). *)
Definition chunk_path (unique_id : nat) : string :=
  os_path_join AUDIO_EXCERPTS ("chunk_" +:+ str unique_id +:+ ".wav").

(** The row of line 82. *)
Definition metadata_row (dest_wav_filename wav_filename word : string)
    (start_time end_time : Q) (text : string) : list cell :=
  [Str dest_wav_filename; Str wav_filename; Str word;
   Num start_time; Num end_time; Str text].

(** The two calls of lines 78 and 80. *)
Definition padded_call (wav_filename : string) (t0 t1 : Q) (dest : string) : call :=
  {| source_file := wav_filename; start_time := Qminus t0 padding;
     end_time := Qplus t1 padding; dest_file := dest |}.

Definition exact_call (wav_filename : string) (t0 t1 : Q) (dest : string) : call :=
  {| source_file := wav_filename; start_time := t0; end_time := t1; dest_file := dest |}.

(** The clip or the exception a logged call came to. *)
Definition call_result (c : call) : result waveform :=
  slice audio_data (source_file c) (start_time c) (end_time c).

(** The first column of the data rows of [output.tsv]. *)
Definition identifiers (rows : list (list cell)) : list cell :=
  map (fun r => hd (Str "") r) rows.

(** The record of a run in which every match event was settled: per
    event either the padded call, which succeeded, or the padded call,
    which failed, followed by the call on the window itself, which
    succeeded; with the clip and the row written for the event. *)
Inductive journal : list call -> list (string * waveform) -> list (list cell) -> Prop :=
| journal_start : journal [] [] [header]
| journal_padded : forall log clips rows wav t0 t1 text word dest clip,
    journal log clips rows ->
    call_result (padded_call wav t0 t1 dest) = Ok clip ->
    journal (log ++ [padded_call wav t0 t1 dest])
            (clips ++ [(dest, clip)])
            (rows ++ [metadata_row dest wav word t0 t1 text])
| journal_retry : forall log clips rows wav t0 t1 text word dest clip,
    journal log clips rows ->
    is_ok (call_result (padded_call wav t0 t1 dest)) = false ->
    call_result (exact_call wav t0 t1 dest) = Ok clip ->
    journal (log ++ [padded_call wav t0 t1 dest; exact_call wav t0 t1 dest])
            (clips ++ [(dest, clip)])
            (rows ++ [metadata_row dest wav word t0 t1 text]).

(** A state whose last two calls are a failed padded call and its failed
    retry raising [e], with nothing written for them. *)
Definition failed_retry (e : exn) (s : state) : Prop :=
  exists log wav t0 t1 dest,
    journal log (excerpts s) (output_tsv s) /\
    calls s = log ++ [padded_call wav t0 t1 dest; exact_call wav t0 t1 dest] /\
    is_ok (call_result (padded_call wav t0 t1 dest)) = false /\
    call_result (exact_call wav t0 t1 dest) = Raise e.

(** The identifiers [0 .. n-1] name the clips and the data rows. *)
Definition counted (n : nat) (s : state) : Prop :=
  map fst (excerpts s) = map chunk_path (seq 0 n) /\
  exists rows,
    output_tsv s = header :: rows /\
    identifiers rows = map (fun i => Str (chunk_path i)) (seq 0 n).

(** A row of [output.tsv] that is the header, or stems from a row [r] of a
    transcript in [tsvs]: it records the seconds of the first two columns
    of [r] and its text, and names a clip that is the slice of the padded
    window or, when that slice failed, the slice of the window itself. *)
Definition from_transcript (s : state) (m : list cell) : Prop :=
  m = header \/
  exists tsv rows r c0 c1 x0 x1 text word dest clip,
    In tsv tsvs /\ lookup tsv audio_data = Some (Text rows) /\ In r rows /\
    nth_error r 0 = Some c0 /\ float c0 = Some x0 /\
    nth_error r 1 = Some c1 /\ float c1 = Some x1 /\
    nth_error r 2 = Some text /\
    In word STRINGS /\ contains word (lower text) = true /\
    let wav := stem tsv +:+ ".wav" in
    let t0 := seconds x0 in
    let t1 := seconds x1 in
    m = metadata_row dest wav word t0 t1 text /\
    In (dest, clip) (excerpts s) /\
    (call_result (padded_call wav t0 t1 dest) = Ok clip \/
     is_ok (call_result (padded_call wav t0 t1 dest)) = false /\
     call_result (exact_call wav t0 t1 dest) = Ok clip).

(** The words of the vocabulary found in a text, in vocabulary order. *)
Definition matched_words (text : string) : list string :=
  filter (fun word => contains word (lower text)) STRINGS.

(** The match events of the rows of a reader, in the order the loops of
    [search_tsv] meet them: row by row, word by word, up to the first row
    that does not parse. *)
Fixpoint match_events (rows : list row) : list (Q * Q * string * string) :=
  match rows with
  | [] => []
  | r :: rest =>
      match parse_row r with
      | Ok (t0, t1, text) =>
          map (fun word => (t0, t1, text, word)) (matched_words text) ++ match_events rest
      | Raise _ => []
      end
  end.

(** The rows of [output.tsv] for a list of events, numbered from [n]. *)
Fixpoint rows_for (wav : string) (n : nat) (events : list (Q * Q * string * string))
  : list (list cell) :=
  match events with
  | [] => []
  | (t0, t1, text, word) :: rest =>
      metadata_row (chunk_path n) wav word t0 t1 text :: rows_for wav (S n) rest
  end.

(** [s'] is [s] after the clips and rows of [events], numbered from [n]. *)
Definition extended_by (wav : string) (n : nat) (events : list (Q * Q * string * string))
    (s s' : state) : Prop :=
  output_tsv s' = output_tsv s ++ rows_for wav n events /\
  map fst (excerpts s') = map fst (excerpts s) ++ map chunk_path (seq n (List.length events)) /\
  reader s' = reader s.

(** One of the two calls made for a window comes to a clip. *)
Definition sliceable (wav : string) (t0 t1 : Q) : bool :=
  is_ok (slice audio_data wav (Qminus t0 padding) (Qplus t1 padding)) ||
  is_ok (slice audio_data wav t0 t1).

(** The rows left to scan all parse, and the windows of those that hold a
    vocabulary word can be cut, padded or not. *)
Definition scannable (wav : string) (rows : list row) : Prop :=
  forall r, In r rows ->
    exists t0 t1 text,
      parse_row r = Ok (t0, t1, text) /\
      (matched_words text <> [] -> sliceable wav t0 t1 = true).

(** The rows of a transcript that reach [search_tsv]: those after the
    header and the first data row. *)
Definition scanned_rows (tsv : string) : list row :=
  match lookup tsv audio_data with
  | Some (Text rows) => skipn 2 rows
  | _ => []
  end.

(** The data rows of [output.tsv] for a list of transcripts, numbered from [n]. *)
Fixpoint run_rows (files : list string) (n : nat) : list (list cell) :=
  match files with
  | [] => []
  | tsv :: rest =>
      let events := match_events (scanned_rows tsv) in
      rows_for (stem tsv +:+ ".wav") n events ++ run_rows rest (n + List.length events)
  end.

Fixpoint run_count (files : list string) : nat :=
  match files with
  | [] => 0%nat
  | tsv :: rest => (List.length (match_events (scanned_rows tsv)) + run_count rest)%nat
  end.

(** What is on disk and in the log of calls: the state without the reader. *)
Definition on_disk (s : state)
  : list (string * waveform) * list (list cell) * list call :=
  (excerpts s, output_tsv s, calls s).

(** One match event settled as the specification words it: first the call
    on the window widened by 0.2 s on both sides; if it fails, one call on
    the window itself; if that fails too, its exception, with no clip and
    no row written.  A call that succeeds is followed by the clip, the
    row, and the next identifier. *)
Definition attempt (wav : string) (t0 t1 : Q) (text word : string) (n : nat) (s : state)
  : result nat * state :=
  let dest := chunk_path n in
  let first := {| source_file := wav; start_time := Qminus t0 (2 # 10);
                  end_time := Qplus t1 (2 # 10); dest_file := dest |} in
  let retry := {| source_file := wav; start_time := t0; end_time := t1;
                  dest_file := dest |} in
  let written clip s' :=
    (Ok (n + 1)%nat, add_row (metadata_row dest wav word t0 t1 text)
                       (add_excerpt dest clip s')) in
  match call_result first with
  | Ok clip => written clip (add_call first s)
  | Raise _ =>
      match call_result retry with
      | Ok clip => written clip (add_call retry (add_call first s))
      | Raise e => (Raise e, add_call retry (add_call first s))
      end
  end.

(** The match events of a list settled one after the other, up to the
    first one whose retry fails. *)
Fixpoint settle_events (wav : string) (events : list (Q * Q * string * string)) (n : nat)
    (s : state) : result nat * state :=
  match events with
  | [] => (Ok n, s)
  | (t0, t1, text, word) :: rest =>
      match attempt wav t0 t1 text word n s with
      | (Ok n', s') => settle_events wav rest n' s'
      | (Raise e, s') => (Raise e, s')
      end
  end.

(** The match events of the rows of a transcript settled in the order of
    the rows, up to the first row that does not parse. *)
Fixpoint settle_rows (wav : string) (rows : list row) (n : nat) (s : state)
  : result nat * state :=
  match rows with
  | [] => (Ok n, s)
  | r :: rest =>
      match parse_row r with
      | Raise e => (Raise e, s)
      | Ok (t0, t1, text) =>
          match settle_events wav
                  (map (fun word => (t0, t1, text, word)) (matched_words text)) n s with
          | (Ok n', s') => settle_rows wav rest n' s'
          | (Raise e, s') => (Raise e, s')
          end
      end
  end.

(** The match events of the rows the run scans, transcript by transcript. *)
Fixpoint settle_files (files : list string) (n : nat) (s : state) : result nat * state :=
  match files with
  | [] => (Ok n, s)
  | tsv :: rest =>
      match lookup tsv audio_data with
      | None => (Raise FileNotFoundError, s)
      | Some (Wave _) => (Raise UnicodeDecodeError, s)
      | Some (Text []) => (Raise StopIteration, s)
      | Some (Text (_ :: _)) =>
          match settle_rows (stem tsv +:+ ".wav") (scanned_rows tsv) n s with
          | (Ok n', s') => settle_files rest n' s'
          | (Raise e, s') => (Raise e, s')
          end
      end
  end.

(** No call so far named a source that is missing from the directory. *)
Definition sources_found (s : state) : Prop :=
  forall c, In c (calls s) ->
    wave_open audio_data (source_file c) <> Raise FileNotFoundError.

(** No row left to scan holds a vocabulary word. *)
Definition no_match_left (s : state) : Prop :=
  forall r, In r (reader s) ->
    exists t0 t1 text,
      parse_row r = Ok (t0, t1, text) /\
      forall word, In word STRINGS -> contains word (lower text) = false.

(** An invariant [I] of the counter and the state, while the reader holds
    rows of the transcript [rows] only. *)
Definition reading (rows : list row) (I : nat -> state -> Prop) (n : nat) (s : state)
  : Prop :=
  I n s /\ incl (reader s) rows.

(** Partial-correctness triples of the script monad, with one
    postcondition for a normal end and one for a raised exception. *)
Definition triple {A} (P : state -> Prop) (c : M A)
    (Q : A -> state -> Prop) (X : exn -> state -> Prop) : Prop :=
  forall s, P s ->
    match c s with
    | (Ok a, s') => Q a s'
    | (Raise e, s') => X e s'
    end.

(** Python's [round] on a number: to the nearest integer, ties to even.
    This is the rounding the specification names for frame offsets. *)
Definition round_half_even (x : Q) : Z :=
  let f := Qfloor x in
  match Qcompare (Qminus x (inject_Z f)) (1 # 2) with
  | Lt => f
  | Gt => (f + 1)%Z
  | Eq => if Z.even f then f else (f + 1)%Z
  end.

(** The slice the specification describes: offsets rounded to the nearest
    frame, failure on a negative start, a start past the end, or a count
    that is not positive, and exactly [end_frame - start_frame] frames
    otherwise. *)
Definition spec_slice (source_wav : waveform) (start_seconds end_seconds : Q)
  : result waveform :=
  let fps := inject_Z (framerate source_wav) in
  let start_frame := round_half_even (Qmult start_seconds fps) in
  let end_frame := round_half_even (Qmult end_seconds fps) in
  let frame_count := (end_frame - start_frame)%Z in
  if ((start_frame <? 0) || (nframes source_wav <? start_frame) || (frame_count <=? 0))%Z
  then Raise wave_Error
  else Ok (with_frames source_wav
             (firstn (Z.to_nat frame_count)
                (skipn (Z.to_nat start_frame) (frames source_wav)))).

(** ** Basic facts *)

Lemma extract_audio_run (source_file : string) (t0 t1 : Q) (dest_file : string) (s : state) :
  extract_audio source_file t0 t1 dest_file s =
  let s1 := add_call (exact_call source_file t0 t1 dest_file) s in
  match slice audio_data source_file t0 t1 with
  | Ok clip => (Ok tt, add_excerpt dest_file clip s1)
  | Raise e => (Raise e, s1)
  end.
Proof.
  unfold extract_audio, slice, cut, bind, lift, modify, wave_write, exact_call.
  destruct (wave_open audio_data source_file) as [w | e]; [| reflexivity].
  destruct (setpos w (frame_at (framerate w) t0)); reflexivity.
Qed.

Lemma on_match_run (wav : string) (t0 t1 : Q) (text word : string) (n : nat) (s : state) :
  on_match wav t0 t1 text word n s =
  let dest := chunk_path n in
  let s1 := add_call (padded_call wav t0 t1 dest) s in
  let written clip s' := (Ok (n + 1)%nat,
     add_row (metadata_row dest wav word t0 t1 text) (add_excerpt dest clip s')) in
  match call_result (padded_call wav t0 t1 dest) with
  | Ok clip => written clip s1
  | Raise _ =>
      let s2 := add_call (exact_call wav t0 t1 dest) s1 in
      match call_result (exact_call wav t0 t1 dest) with
      | Ok clip => written clip s2
      | Raise e => (Raise e, s2)
      end
  end.
Proof.
  unfold on_match, try_except, bind, writerow, modify, ret, call_result, chunk_path, metadata_row.
  rewrite extract_audio_run.
  cbn [padded_call exact_call source_file start_time end_time dest_file].
  cbv zeta.
  destruct (slice audio_data wav (Qminus t0 padding) (Qplus t1 padding)); [reflexivity |].
  rewrite extract_audio_run. cbv zeta.
  destruct (slice audio_data wav t0 t1); reflexivity.
Qed.

(** *** [word in text] is the substring test *)

Lemma prefix_append (word text : string) :
  String.prefix word text = true <-> exists after, text = word +:+ after.
Proof.
  revert text. induction word as [| a word IH]; intros text.
  - split; [intros _; now exists text | intros _; now destruct text].
  - destruct text as [| b text]; cbn.
    + split; [discriminate | intros [after H]; discriminate H].
    + destruct (ascii_dec a b) as [-> | Hne].
      * rewrite IH. split; intros [after H]; exists after.
        -- now rewrite H.
        -- now injection H.
      * split; [discriminate | intros [after H]; congruence].
Qed.

Lemma contains_substring (word text : string) :
  contains word text = true <-> exists before after, text = before +:+ word +:+ after.
Proof.
  induction text as [| c text IH]; cbn [contains].
  - destruct (String.prefix word "") eqn:Hp.
    + split; [intros _ | reflexivity].
      apply prefix_append in Hp. destruct Hp as [after H]. now exists "", after.
    + split; [discriminate |]. intros [before [after H]].
      destruct before as [| b before]; [| discriminate H].
      cbn in H. assert (Hp' : String.prefix word "" = true)
        by (apply prefix_append; now exists after).
      congruence.
  - destruct (String.prefix word (String c text)) eqn:Hp.
    + split; [intros _ | reflexivity].
      apply prefix_append in Hp. destruct Hp as [after H]. now exists "", after.
    + rewrite IH. split; intros [before [after H]].
      * exists (String c before), after. cbn. now rewrite H.
      * destruct before as [| b before].
        -- cbn in H. assert (Hp' : String.prefix word (String c text) = true)
             by (apply prefix_append; now exists after).
           congruence.
        -- cbn in H. injection H as _ H. now exists before, after.
Qed.

(** *** Rules for the triples *)

Lemma triple_for_each {A} (l : list A) (body : A -> nat -> M nat)
    (I : nat -> state -> Prop) (X : exn -> state -> Prop) :
  (forall x n, In x l -> triple (I n) (body x n) I X) ->
  forall n, triple (I n) (for_each l body n) I X.
Proof.
  induction l as [| x l IH]; intros Hbody n s Hs; cbn.
  - exact Hs.
  - unfold bind. pose proof (Hbody x n (or_introl eq_refl) s Hs) as Hstep.
    destruct (body x n s) as [[n' | e] s']; [| exact Hstep].
    apply IH; [| exact Hstep].
    intros y m Hy. apply Hbody. now right.
Qed.

(** *** The reader is touched by the two [for] statements only *)

Lemma on_match_reader wav t0 t1 text word n s :
  reader (snd (on_match wav t0 t1 text word n s)) = reader s.
Proof.
  rewrite on_match_run. cbv zeta.
  destruct (call_result (padded_call wav t0 t1 (chunk_path n))); [reflexivity |].
  destruct (call_result (exact_call wav t0 t1 (chunk_path n))); reflexivity.
Qed.

Lemma search_row_reader wav r n s :
  reader (snd (search_row wav r n s)) = reader s.
Proof.
  unfold search_row, bind, lift.
  destruct (parse_row r) as [[[t0 t1] text] | e]; [| reflexivity].
  generalize n s. clear n s.
  induction STRINGS as [| word l IH]; intros n s; cbn; [reflexivity |].
  unfold bind.
  destruct (contains word (lower text)).
  - pose proof (on_match_reader wav t0 t1 text word n s) as H.
    destruct (on_match wav t0 t1 text word n s) as [[n' | e] s']; cbn in H.
    + rewrite IH. exact H.
    + exact H.
  - cbn. apply IH.
Qed.

(** *** An invariant of the counter and the state holds through a run *)

Section Invariant.

Variable I : nat -> state -> Prop.
Variable X : exn -> state -> Prop.

Hypothesis I_reader : forall n s rows, I n s -> I n (set_reader rows s).
Hypothesis I_raise : forall n s e, I n s -> X e s.
Hypothesis I_match :
  forall tsv rows r t0 t1 text word n,
    In tsv tsvs -> lookup tsv audio_data = Some (Text rows) -> In r rows ->
    parse_row r = Ok (t0, t1, text) ->
    In word STRINGS -> contains word (lower text) = true ->
    triple (I n) (on_match (stem tsv +:+ ".wav") t0 t1 text word n) I X.

Section OneFile.

Variable tsv : string.
Variable rows : list row.
Hypothesis tsv_listed : In tsv tsvs.
Hypothesis tsv_rows : lookup tsv audio_data = Some (Text rows).

Lemma search_row_inv r n :
  In r rows -> triple (I n) (search_row (stem tsv +:+ ".wav") r n) I X.
Proof.
  intros Hr s Hs. unfold search_row, bind, lift.
  destruct (parse_row r) as [[[t0 t1] text] | e] eqn:Hparse; [| now apply I_raise with n].
  apply (triple_for_each STRINGS _ I X); [| exact Hs].
  intros word m Hword s0 Hs0.
  destruct (contains word (lower text)) eqn:Hin.
  - now apply (I_match tsv rows r t0 t1 text word m).
  - exact Hs0.
Qed.

Lemma search_tsv_loop_inv k n :
  triple (reading rows I n) (for_reader k (search_row (stem tsv +:+ ".wav")) n) (reading rows I) X.
Proof.
  revert n. induction k as [| k IH]; intros n s [Hs Hincl]; cbn.
  - now split.
  - destruct (reader s) as [| r rest] eqn:Hreader; [split; [exact Hs | now rewrite Hreader] |].
    unfold bind.
    assert (Hr : In r rows) by (apply Hincl; now left).
    pose proof (search_row_inv r n Hr (set_reader rest s) (I_reader _ _ _ Hs)) as Hstep.
    pose proof (search_row_reader (stem tsv +:+ ".wav") r n (set_reader rest s)) as Hkeep.
    destruct (search_row (stem tsv +:+ ".wav") r n (set_reader rest s)) as [[n' | e] s'];
      [| exact Hstep].
    apply IH. split; [exact Hstep |].
    cbn in Hkeep. rewrite Hkeep. intros x Hx. apply Hincl. now right.
Qed.

Lemma search_tsv_inv n :
  triple (reading rows I n) (search_tsv (stem tsv +:+ ".wav") n) (reading rows I) X.
Proof.
  intros s Hs. unfold search_tsv, for_row_in_reader. now apply search_tsv_loop_inv.
Qed.

Lemma outer_loop_inv k n :
  triple (reading rows I n)
    (for_reader k (fun _ unique_id => search_tsv (stem tsv +:+ ".wav") unique_id) n)
    (reading rows I) X.
Proof.
  revert n. induction k as [| k IH]; intros n s [Hs Hincl]; cbn.
  - now split.
  - destruct (reader s) as [| r rest] eqn:Hreader; [split; [exact Hs | now rewrite Hreader] |].
    unfold bind.
    assert (HJ : reading rows I n (set_reader rest s)).
    { split; [now apply I_reader |]. cbn. intros x Hx. apply Hincl. now right. }
    pose proof (search_tsv_inv n _ HJ) as Hstep.
    destruct (search_tsv (stem tsv +:+ ".wav") n (set_reader rest s)) as [[n' | e] s'];
      [| exact Hstep].
    now apply IH.
Qed.

End OneFile.

Lemma process_tsv_inv tsv n :
  In tsv tsvs -> triple (I n) (process_tsv tsv n) I X.
Proof.
  intros Htsv s Hs. unfold process_tsv, open_reader, bind.
  destruct (lookup tsv audio_data) as [[rows | w] |] eqn:Hlookup;
    cbn; try now apply I_raise with n.
  unfold next. cbn.
  destruct rows as [| hd data]; cbn; [apply I_raise with n; now apply I_reader |].
  unfold for_row_in_reader.
  pose proof (outer_loop_inv tsv (hd :: data) Htsv Hlookup
                (List.length (reader (set_reader data (set_reader (hd :: data) s)))) n
                (set_reader data (set_reader (hd :: data) s))) as H.
  cbn in H.
  match type of H with ?P -> _ => assert (HP : P) end.
  { split; [now do 2 apply I_reader |]. intros x Hx. now right. }
  specialize (H HP).
  match goal with |- match ?c with _ => _ end =>
    match type of H with match ?c' with _ => _ end => change c with c' end end.
  destruct (for_reader _ _ n _) as [[n' | e] s']; [apply H | exact H].
Qed.

Lemma main_inv :
  I 0%nat (add_row header initial) ->
  match main initial with
  | (Ok n, s) => I n s
  | (Raise e, s) => X e s
  end.
Proof.
  intros H0. unfold main, bind, writerow, modify.
  apply (triple_for_each tsvs process_tsv I X); [| exact H0].
  intros tsv n Htsv. now apply process_tsv_inv.
Qed.

End Invariant.

(** *** [int] on rationals, frame offsets, [readframes] *)

Lemma py_int_floor (x : Q) : (0 <= x)%Q -> py_int x = Qfloor x.
Proof.
  destruct x as [n d]. unfold Qle, py_int, Qfloor. cbn. intros H.
  apply Z.quot_div_nonneg; lia.
Qed.

Lemma py_int_opp (x : Q) : py_int (Qopp x) = (- py_int x)%Z.
Proof.
  destruct x as [n d]. unfold py_int. cbn. apply Z.quot_opp_l. lia.
Qed.

(** [int] truncates toward zero. *)
Lemma py_int_truncates (x : Q) :
  ((0 <= x)%Q -> (inject_Z (py_int x) <= x)%Q /\ (x < inject_Z (py_int x) + 1)%Q) /\
  ((x <= 0)%Q -> (inject_Z (py_int x) - 1 < x)%Q /\ (x <= inject_Z (py_int x))%Q).
Proof.
  split; intros H.
  - rewrite (py_int_floor x H). split; [apply Qfloor_le |].
    pose proof (Qlt_floor x) as Hlt. now rewrite inject_Z_plus in Hlt.
  - assert (Hopp : (0 <= - x)%Q) by lra.
    assert (Hint : py_int x = (- Qfloor (- x))%Z).
    { rewrite <- (py_int_floor _ Hopp), py_int_opp. lia. }
    rewrite Hint, inject_Z_opp.
    pose proof (Qfloor_le (- x)) as Hle. pose proof (Qlt_floor (- x)) as Hlt.
    rewrite inject_Z_plus in Hlt. change (inject_Z 1) with 1%Q in Hlt. split; lra.
Qed.

Lemma py_int_nonneg (x : Q) : (0 <= x)%Q -> (0 <= py_int x)%Z.
Proof.
  intros Hx. rewrite py_int_floor by exact Hx.
  change 0%Z with (Qfloor 0). now apply Qfloor_resp_le.
Qed.

Lemma py_int_below (x : Q) (n : Z) : (0 <= x)%Q -> (x <= inject_Z n)%Q -> (py_int x <= n)%Z.
Proof.
  intros Hx Hn. rewrite py_int_floor by exact Hx.
  rewrite <- (Qfloor_Z n). now apply Qfloor_resp_le.
Qed.


Lemma setpos_ok (w : waveform) (pos : Z) :
  (0 <= pos <= nframes w)%Z -> setpos w pos = Ok pos.
Proof.
  intros H. unfold setpos.
  destruct (Z.ltb_spec pos 0); [lia |].
  destruct (Z.ltb_spec (nframes w) pos); [lia | reflexivity].
Qed.

Lemma setpos_raises (w : waveform) (pos : Z) :
  (pos < 0 \/ nframes w < pos)%Z -> setpos w pos = Raise wave_Error.
Proof.
  intros H. unfold setpos.
  destruct (Z.ltb_spec pos 0); [reflexivity |].
  destruct (Z.ltb_spec (nframes w) pos); [reflexivity | lia].
Qed.

Lemma readframes_window (w : waveform) (pos n : Z) :
  (0 <= n)%Z ->
  readframes w pos n = firstn (Z.to_nat n) (skipn (Z.to_nat pos) (frames w)).
Proof.
  intros Hn. unfold readframes.
  destruct (Z.eqb_spec n 0) as [-> | Hne]; [reflexivity |].
  destruct (Z.ltb_spec n 0); [lia | reflexivity].
Qed.

Lemma readframes_inside (w : waveform) (pos n : Z) :
  (0 <= pos)%Z -> (0 <= n)%Z -> (pos + n <= nframes w)%Z ->
  Z.of_nat (List.length (readframes w pos n)) = n.
Proof.
  intros Hpos Hn Hend. rewrite readframes_window by exact Hn.
  rewrite firstn_length_le; [lia |].
  rewrite length_skipn. unfold nframes in Hend. lia.
Qed.

Lemma readframes_clamped (w : waveform) (pos n : Z) :
  (0 <= pos <= nframes w)%Z -> (nframes w < pos + n)%Z ->
  readframes w pos n = skipn (Z.to_nat pos) (frames w).
Proof.
  intros Hpos Hend. rewrite readframes_window by lia.
  apply firstn_all2. rewrite length_skipn. unfold nframes in *. lia.
Qed.

(** ** The waveform slicer, [extract_audio] *)

(** C4 (amended). For every call of the slicer on a source that opens,
    with times whose products with the frame rate are finite, the frame
    offsets are [int(fps * start_time)] and [int(fps * end_time)]: the
    binary64 products truncated toward zero, not rounded to the nearest
    frame.  The number of frames asked for is
    [end_frame - start_frame], and the clip written holds exactly that
    many frames, those from [start_frame] on, when
    [0 <= start_frame <= end_frame <= nframes]. *)
Theorem frame_offsets_truncate (source_file : string) (w : waveform) (t0 t1 : binary64)
    (x0 x1 : Q) (dest_file : string) (s : state) :
  wave_open audio_data source_file = Ok w ->
  binary64_value (PrimFloat.mul (binary64_of_int (framerate w)) t0) = Some x0 ->
  binary64_value (PrimFloat.mul (binary64_of_int (framerate w)) t1) = Some x1 ->
  let truncated (x : Q) (k : Z) :=
    ((0 <= x)%Q -> (inject_Z k <= x)%Q /\ (x < inject_Z k + 1)%Q) /\
    ((x <= 0)%Q -> (inject_Z k - 1 < x)%Q /\ (x <= inject_Z k)%Q) in
  exists start_frame end_frame,
    frame_at_binary64 (framerate w) t0 = Ok start_frame /\
    frame_at_binary64 (framerate w) t1 = Ok end_frame /\
    truncated x0 start_frame /\
    truncated x1 end_frame /\
    ((0 <= start_frame <= end_frame)%Z -> (end_frame <= nframes w)%Z ->
     let chunk_data :=
       firstn (Z.to_nat (end_frame - start_frame))
         (skipn (Z.to_nat start_frame) (frames w)) in
     extract_audio_binary64 source_file t0 t1 dest_file s =
       (Ok tt, add_excerpt dest_file (with_frames w chunk_data) s) /\
     Z.of_nat (List.length chunk_data) = (end_frame - start_frame)%Z).
Proof.
  intros Hopen H0 H1 truncated. exists (py_int x0), (py_int x1).
  assert (Hstart : frame_at_binary64 (framerate w) t0 = Ok (py_int x0))
    by (unfold frame_at_binary64, int_of_binary64; now rewrite H0).
  assert (Hend : frame_at_binary64 (framerate w) t1 = Ok (py_int x1))
    by (unfold frame_at_binary64, int_of_binary64; now rewrite H1).
  split; [exact Hstart |]. split; [exact Hend |].
  split; [apply py_int_truncates |]. split; [apply py_int_truncates |].
  intros Hrange Hlast chunk_data.
  unfold extract_audio_binary64, bind, lift, wave_write, modify.
  rewrite Hopen, Hstart, Hend. rewrite setpos_ok by lia.
  rewrite readframes_window by lia. split; [reflexivity |].
  unfold chunk_data. rewrite <- readframes_window by lia.
  apply readframes_inside; lia.
Qed.

(** C5 (amended). For every call of [extract_audio] on a source that
    opens, the call fails with the range error of [setpos] if and only if
    [start_frame] is negative or exceeds the number of frames of the
    source.  A frame count [end_frame - start_frame] that is zero or
    negative is no failure.  In all other cases the call writes the frames
    read to the destination; they are exactly [end_frame - start_frame]
    frames when that count is not negative and [end_frame] lies within the
    source. *)
Theorem slicer_fails_iff_start_out_of_range (source_file : string) (w : waveform)
    (t0 t1 : Q) (dest_file : string) (s : state) :
  wave_open audio_data source_file = Ok w ->
  let start_frame := frame_at (framerate w) t0 in
  let end_frame := frame_at (framerate w) t1 in
  let n_frames := (end_frame - start_frame)%Z in
  let out_of_range := (start_frame < 0 \/ nframes w < start_frame)%Z in
  (fst (extract_audio source_file t0 t1 dest_file s) = Raise wave_Error <-> out_of_range) /\
  (~ out_of_range ->
   extract_audio source_file t0 t1 dest_file s =
     (Ok tt, add_excerpt dest_file (with_frames w (readframes w start_frame n_frames))
               (add_call (exact_call source_file t0 t1 dest_file) s)) /\
   ((0 <= n_frames)%Z -> (end_frame <= nframes w)%Z ->
    Z.of_nat (List.length (readframes w start_frame n_frames)) = n_frames)).
Proof.
  intros Hopen start_frame end_frame n_frames out_of_range.
  rewrite extract_audio_run. unfold slice, cut. rewrite Hopen.
  fold start_frame. fold end_frame. fold n_frames. cbv zeta.
  assert (Hdec : out_of_range \/ (0 <= start_frame <= nframes w)%Z)
    by (unfold out_of_range; lia).
  destruct Hdec as [Hout | Hin].
  - rewrite setpos_raises by exact Hout. split; [now split | intros Hn; contradiction].
  - rewrite setpos_ok by exact Hin. split.
    + split; [intros H; discriminate H | unfold out_of_range; lia].
    + intros _. split; [reflexivity |].
      intros Hn Hend. apply readframes_inside; lia.
Qed.

(** C10. For every call of [extract_audio] whose [start_frame] lies within
    the source and whose [end_frame] exceeds the number of frames of the
    source, the call raises nothing and writes a clip that holds the
    frames from [start_frame] to the end of the source: fewer frames than
    [end_frame - start_frame]. *)
Theorem slice_past_end_is_clamped (source_file : string) (w : waveform) (t0 t1 : Q)
    (dest_file : string) (s : state) :
  wave_open audio_data source_file = Ok w ->
  let start_frame := frame_at (framerate w) t0 in
  let end_frame := frame_at (framerate w) t1 in
  (0 <= start_frame <= nframes w)%Z ->
  (nframes w < end_frame)%Z ->
  let to_the_end := skipn (Z.to_nat start_frame) (frames w) in
  extract_audio source_file t0 t1 dest_file s =
    (Ok tt, add_excerpt dest_file (with_frames w to_the_end)
              (add_call (exact_call source_file t0 t1 dest_file) s)) /\
  Z.of_nat (List.length to_the_end) = (nframes w - start_frame)%Z /\
  (Z.of_nat (List.length to_the_end) < end_frame - start_frame)%Z.
Proof.
  intros Hopen start_frame end_frame Hstart Hend to_the_end.
  rewrite extract_audio_run. unfold slice, cut. rewrite Hopen.
  fold start_frame. fold end_frame. cbv zeta.
  rewrite setpos_ok by exact Hstart.
  rewrite readframes_clamped by lia.
  assert (Hlen : Z.of_nat (List.length to_the_end) = (nframes w - start_frame)%Z).
  { unfold to_the_end. rewrite length_skipn. unfold nframes in *. lia. }
  split; [reflexivity |]. split; [exact Hlen | lia].
Qed.

(** ** Clip names *)

Lemma append_inj_r (a x y : string) : a +:+ x = a +:+ y -> x = y.
Proof.
  induction a as [| c a IH]; cbn; intros H; [exact H |].
  injection H as H. now apply IH.
Qed.

Lemma append_length (x y : string) :
  String.length (x +:+ y) = (String.length x + String.length y)%nat.
Proof.
  induction x as [| c x IH]; cbn; [reflexivity | now rewrite IH].
Qed.

Lemma append_inj_l (x y c : string) : x +:+ c = y +:+ c -> x = y.
Proof.
  revert y. induction x as [| a x IH]; intros [| b y] H; cbn in H.
  - reflexivity.
  - apply (f_equal String.length) in H. cbn in H. rewrite append_length in H. lia.
  - apply (f_equal String.length) in H. cbn in H. rewrite append_length in H. lia.
  - injection H as -> H. f_equal. now apply IH.
Qed.

Lemma str_inj (i j : nat) : str i = str j -> i = j.
Proof.
  assert (Hback : forall n,
    option_map Nat.of_uint (NilZero.uint_of_string (str n)) = Some n).
  { intros n. unfold str. pose proof (DecimalNat.Unsigned.of_to n) as Hn.
    destruct (Nat.to_uint n) eqn:Hd;
      [cbn in *; now rewrite <- Hn
      | rewrite NilZero.usu by discriminate; cbn [option_map]; now rewrite Hn ..]. }
  intros H. pose proof (Hback i) as Hi. rewrite H, Hback in Hi. now injection Hi.
Qed.

Lemma chunk_path_inj (i j : nat) : chunk_path i = chunk_path j -> i = j.
Proof.
  unfold chunk_path, os_path_join. cbn [String.prefix append].
  intros H. apply str_inj, (append_inj_l _ _ ".wav"), (append_inj_r "chunk_").
  destruct (String.eqb AUDIO_EXCERPTS "" || ends_with_slash AUDIO_EXCERPTS).
  - now apply append_inj_r in H.
  - now apply append_inj_r, (append_inj_r "/") in H.
Qed.

Lemma chunk_paths_NoDup (n : nat) : NoDup (map chunk_path (seq 0 n)).
Proof.
  apply Injective_map_NoDup; [intros i j; apply chunk_path_inj | apply seq_NoDup].
Qed.

(** ** The run: identifiers, attempts, metadata *)

Lemma counted_next wav t0 t1 text word n :
  triple (counted n) (on_match wav t0 t1 text word n) counted
         (fun _ s => exists k, counted k s).
Proof.
  intros s [Hclips [rows [Hout Hids]]]. rewrite on_match_run. cbv zeta.
  assert (Hnext : forall clip s',
    excerpts s' = excerpts s -> output_tsv s' = output_tsv s ->
    counted (n + 1)
      (add_row (metadata_row (chunk_path n) wav word t0 t1 text)
         (add_excerpt (chunk_path n) clip s'))).
  { intros clip s' He Ho. unfold counted. rewrite Nat.add_1_r, seq_S. split; cbn.
    - rewrite He, !map_app, Hclips. reflexivity.
    - exists (rows ++ [metadata_row (chunk_path n) wav word t0 t1 text]).
      rewrite Ho, Hout. split; [reflexivity |].
      unfold identifiers in *. rewrite !map_app, Hids. reflexivity. }
  destruct (call_result (padded_call wav t0 t1 (chunk_path n))); [now apply Hnext |].
  destruct (call_result (exact_call wav t0 t1 (chunk_path n))); [now apply Hnext |].
  exists n. split; [exact Hclips | now exists rows].
Qed.

(** C7. In every run, whether it ends or aborts, the clips written and
    the data rows of [output.tsv] carry the identifiers [0, 1, ..., n-1] in
    this order, without gap or repeat, across all transcript files; a run
    that ends returns [n] as the next identifier. *)
Theorem identifiers_count_from_zero :
  let (r, s) := main initial in
  exists n rows,
    map fst (excerpts s) = map chunk_path (seq 0 n) /\
    output_tsv s = header :: rows /\
    identifiers rows = map (fun i => Str (chunk_path i)) (seq 0 n) /\
    NoDup (map chunk_path (seq 0 n)) /\
    match r with Ok k => k = n | Raise _ => True end.
Proof.
  pose proof (main_inv counted (fun _ s => exists k, counted k s)) as H.
  assert (Hpack : forall n s (r : result nat),
    counted n s -> match r with Ok k => k = n | Raise _ => True end ->
    exists n rows,
      map fst (excerpts s) = map chunk_path (seq 0 n) /\
      output_tsv s = header :: rows /\
      identifiers rows = map (fun i => Str (chunk_path i)) (seq 0 n) /\
      NoDup (map chunk_path (seq 0 n)) /\
      match r with Ok k => k = n | Raise _ => True end).
  { intros n s r [Hclips [rows [Hout Hids]]] Hr. exists n, rows.
    repeat split; auto using chunk_paths_NoDup. }
  destruct (main initial) as [[n | e] s].
  - apply (Hpack n s (Ok n)); [| reflexivity].
    apply H; try (now intros; eauto).
    + intros; apply counted_next.
    + split; [reflexivity | now exists []].
  - assert (Hk : exists k, counted k s).
    { apply H; try (now intros; eauto).
      + intros; apply counted_next.
      + split; [reflexivity | now exists []]. }
    destruct Hk as [k Hk]. apply (Hpack k s (Raise e)); [exact Hk | exact I].
Qed.

Lemma journal_next wav t0 t1 text word n :
  triple (fun s => journal (calls s) (excerpts s) (output_tsv s))
         (on_match wav t0 t1 text word n)
         (fun _ s => journal (calls s) (excerpts s) (output_tsv s))
         (fun e s => journal (calls s) (excerpts s) (output_tsv s) \/ failed_retry e s).
Proof.
  intros s Hs. rewrite on_match_run. cbv zeta.
  destruct (call_result (padded_call wav t0 t1 (chunk_path n))) as [clip | e0] eqn:Hpadded.
  - cbn [calls excerpts output_tsv add_row add_excerpt add_call]. now apply journal_padded.
  - destruct (call_result (exact_call wav t0 t1 (chunk_path n))) as [clip | e] eqn:Hexact.
    + cbn [calls excerpts output_tsv add_row add_excerpt add_call].
      rewrite <- app_assoc. cbn [app].
      apply journal_retry; [exact Hs | now rewrite Hpadded | exact Hexact].
    + right. exists (calls s), wav, t0, t1, (chunk_path n).
      split; [exact Hs |]. split; [cbn; now rewrite <- app_assoc |].
      split; [now rewrite Hpadded | exact Hexact].
Qed.

Lemma parse_row_columns (r : row) (t0 t1 : Q) (text : string) :
  parse_row r = Ok (t0, t1, text) ->
  exists c0 c1 x0 x1,
    nth_error r 0 = Some c0 /\ float c0 = Some x0 /\
    nth_error r 1 = Some c1 /\ float c1 = Some x1 /\
    nth_error r 2 = Some text /\ t0 = seconds x0 /\ t1 = seconds x1.
Proof.
  unfold parse_row, float_column, column.
  destruct (nth_error r 0) as [c0 |]; [| discriminate].
  destruct (float c0) as [x0 |] eqn:Hx0; [| discriminate].
  destruct (nth_error r 1) as [c1 |]; [| discriminate].
  destruct (float c1) as [x1 |] eqn:Hx1; [| discriminate].
  destruct (nth_error r 2) as [c2 |]; [| discriminate].
  intros [= <- <- <-]. now exists c0, c1, x0, x1.
Qed.

Lemma from_transcript_grows (s s' : state) (m : list cell) :
  incl (excerpts s) (excerpts s') -> from_transcript s m -> from_transcript s' m.
Proof.
  intros Hincl [-> | H]; [now left | right].
  destruct H as (tsv & rows & r & c0 & c1 & x0 & x1 & text & word & dest & clip & H).
  exists tsv, rows, r, c0, c1, x0, x1, text, word, dest, clip.
  cbv zeta in *. intuition.
Qed.

Lemma from_transcript_next tsv rows r t0 t1 text word n :
  In tsv tsvs -> lookup tsv audio_data = Some (Text rows) -> In r rows ->
  parse_row r = Ok (t0, t1, text) ->
  In word STRINGS -> contains word (lower text) = true ->
  triple (fun s => Forall (from_transcript s) (output_tsv s))
         (on_match (stem tsv +:+ ".wav") t0 t1 text word n)
         (fun _ s => Forall (from_transcript s) (output_tsv s))
         (fun _ s => Forall (from_transcript s) (output_tsv s)).
Proof.
  intros Htsv Hrows Hr Hparse Hword Hin s Hs.
  destruct (parse_row_columns r t0 t1 text Hparse)
    as (c0 & c1 & x0 & x1 & H0 & Hx0 & H1 & Hx1 & H2 & -> & ->).
  rewrite on_match_run. cbv zeta.
  set (wav := stem tsv +:+ ".wav"). set (dest := chunk_path n).
  assert (Hwritten : forall clip s',
    excerpts s' = excerpts s -> output_tsv s' = output_tsv s ->
    (call_result (padded_call wav (seconds x0) (seconds x1) dest) = Ok clip \/
     is_ok (call_result (padded_call wav (seconds x0) (seconds x1) dest)) = false /\
     call_result (exact_call wav (seconds x0) (seconds x1) dest) = Ok clip) ->
    let s'' := add_row (metadata_row dest wav word (seconds x0) (seconds x1) text)
                 (add_excerpt dest clip s') in
    Forall (from_transcript s'') (output_tsv s'')).
  { intros clip s' He Ho Hclip s''. subst s''.
    cbn [output_tsv add_row add_excerpt]. rewrite Ho.
    apply Forall_app. split.
    - eapply Forall_impl; [| exact Hs]. intros m. apply from_transcript_grows.
      cbn. rewrite He. apply incl_appl, incl_refl.
    - constructor; [| constructor]. right.
      exists tsv, rows, r, c0, c1, x0, x1, text, word, dest, clip. cbv zeta.
      repeat (split; [assumption || reflexivity |]).
      split; [| exact Hclip].
      cbn. rewrite He. apply in_or_app. right. now left. }
  destruct (call_result (padded_call wav (seconds x0) (seconds x1) dest)) as [clip | e0]
    eqn:Hpadded.
  - apply Hwritten; auto.
  - destruct (call_result (exact_call wav (seconds x0) (seconds x1) dest)) as [clip | e]
      eqn:Hexact.
    + apply Hwritten; auto.
    + cbn. exact Hs.
Qed.

(** C9. Every row of [output.tsv] written by a run, apart from the
    header, stems from a row of a transcript: its Start Time and End Time
    are the first two columns of that row divided by 1000, unpadded, and
    its Text is the third column, whether the clip it names was cut from
    the padded window or, after that failed, from the window itself. *)
Theorem metadata_keeps_transcript_times :
  Forall (from_transcript (snd (main initial))) (output_tsv (snd (main initial))).
Proof.
  pose proof (main_inv
    (fun _ s => Forall (from_transcript s) (output_tsv s))
    (fun _ s => Forall (from_transcript s) (output_tsv s))) as H.
  destruct (main initial) as [[n | e] s]; cbn; apply H; try (now intros; auto);
    try (intros; eapply from_transcript_next; eassumption);
    cbn; constructor; [now left | constructor | now left | constructor].
Qed.

(** ** Missing waveforms *)

Lemma slice_missing (wav : string) (t0 t1 : Q) :
  wave_open audio_data wav = Raise FileNotFoundError ->
  slice audio_data wav t0 t1 = Raise FileNotFoundError.
Proof. intros H. unfold slice. now rewrite H. Qed.

Lemma on_match_missing wav t0 t1 text word n s :
  wave_open audio_data wav = Raise FileNotFoundError ->
  on_match wav t0 t1 text word n s =
    (Raise FileNotFoundError,
     add_call (exact_call wav t0 t1 (chunk_path n))
       (add_call (padded_call wav t0 t1 (chunk_path n)) s)).
Proof.
  intros H. rewrite on_match_run. unfold call_result. cbn.
  now rewrite !slice_missing.
Qed.

Lemma sources_found_next wav t0 t1 text word n :
  triple sources_found (on_match wav t0 t1 text word n)
         (fun _ s => sources_found s)
         (fun e s => ~ sources_found s -> e = FileNotFoundError).
Proof.
  intros s Hs.
  assert (Hcase : wave_open audio_data wav = Raise FileNotFoundError \/
                  wave_open audio_data wav <> Raise FileNotFoundError)
    by (destruct (wave_open audio_data wav) as [w | []];
        (now left) || (right; discriminate)).
  destruct Hcase as [Hmissing | Hfound].
  - rewrite on_match_missing by exact Hmissing. intros _. reflexivity.
  - assert (Hkeep : forall s', (forall c, In c (calls s') ->
                      In c (calls s) \/ source_file c = wav) -> sources_found s').
    { intros s' Hs' c Hc. destruct (Hs' c Hc) as [Hold | ->]; [now apply Hs | exact Hfound]. }
    assert (H1 : forall c, In c (calls s ++ [padded_call wav t0 t1 (chunk_path n)]) ->
                 In c (calls s) \/ source_file c = wav).
    { intros c Hc. apply in_app_or in Hc. destruct Hc as [Hc | [<- | []]]; auto. }
    assert (H2 : forall c, In c ((calls s ++ [padded_call wav t0 t1 (chunk_path n)]) ++
                                 [exact_call wav t0 t1 (chunk_path n)]) ->
                 In c (calls s) \/ source_file c = wav).
    { intros c Hc. apply in_app_or in Hc. destruct Hc as [Hc | [<- | []]]; auto. }
    rewrite on_match_run. cbv zeta.
    destruct (call_result (padded_call wav t0 t1 (chunk_path n))); [now apply Hkeep |].
    destruct (call_result (exact_call wav t0 t1 (chunk_path n))); [now apply Hkeep |].
    intros Hnot. exfalso. apply Hnot. now apply Hkeep.
Qed.

Lemma search_row_no_match wav r n s t0 t1 text :
  parse_row r = Ok (t0, t1, text) ->
  (forall word, In word STRINGS -> contains word (lower text) = false) ->
  search_row wav r n s = (Ok n, s).
Proof.
  intros Hparse Hnone. unfold search_row, bind, lift. rewrite Hparse.
  revert Hnone. generalize STRINGS as l.
  induction l as [| word l IH]; intros Hnone; cbn; [reflexivity |].
  unfold bind. rewrite (Hnone word) by now left. cbn.
  apply IH. intros w Hw. apply Hnone. now right.
Qed.

Lemma search_tsv_no_match wav n s :
  no_match_left s -> search_tsv wav n s = (Ok n, set_reader [] s).
Proof.
  unfold search_tsv, for_row_in_reader.
  remember (List.length (reader s)) as k eqn:Hk.
  revert s Hk. induction k as [| k IH]; intros s Hk Hnone.
  - destruct s as [rd ex out cl]. cbn in *. destruct rd; [reflexivity | discriminate].
  - cbn. destruct (reader s) as [| r rest] eqn:Hreader; [discriminate |].
    destruct (Hnone r) as (t0 & t1 & text & Hparse & Hwords); [rewrite Hreader; now left |].
    unfold bind. rewrite (search_row_no_match _ _ _ _ _ _ _ Hparse Hwords).
    rewrite IH.
    + reflexivity.
    + cbn in *. now injection Hk.
    + intros r' Hr'. apply Hnone. rewrite Hreader. now right.
Qed.

(** C6 (amended). A transcript whose waveform file is missing aborts the
    run when one of its match events is processed, not before: both the
    padded call and the retry fail to open the source, and
    FileNotFoundError ends the run with nothing written for the event.  No
    run that attempted a slice of a missing waveform ends normally.  A
    transcript none of whose scanned rows holds a vocabulary word is
    scanned to its end without an error, and its missing waveform goes
    unnoticed. *)
Theorem missing_waveform_fatal_at_first_match (wav : string) :
  wave_open audio_data wav = Raise FileNotFoundError ->
  (forall t0 t1 text word n s,
     on_match wav t0 t1 text word n s =
       (Raise FileNotFoundError,
        add_call (exact_call wav t0 t1 (chunk_path n))
          (add_call (padded_call wav t0 t1 (chunk_path n)) s))) /\
  (In wav (map source_file (calls (snd (main initial)))) ->
   fst (main initial) = Raise FileNotFoundError) /\
  (forall n s, no_match_left s -> search_tsv wav n s = (Ok n, set_reader [] s)).
Proof.
  intros Hmissing. split; [| split].
  - intros. now apply on_match_missing.
  - intros Hcalled.
    pose proof (main_inv (fun _ s => sources_found s)
                  (fun e s => ~ sources_found s -> e = FileNotFoundError)) as H.
    assert (Hnot : ~ sources_found (snd (main initial))).
    { intros Hfound. apply in_map_iff in Hcalled. destruct Hcalled as [c [Hc Hin]].
      apply (Hfound c Hin). now rewrite Hc. }
    destruct (main initial) as [[n | e] s]; cbn in *.
    + exfalso. apply Hnot.
      apply H; [intros ? ? ? Hf; exact Hf | intros ? ? ? Hf Hn; contradiction
               | intros; apply sources_found_next | intros c []].
    + f_equal.
      apply H; [intros ? ? ? Hf; exact Hf | intros ? ? ? Hf Hn; contradiction
               | intros; apply sources_found_next | intros c [] | exact Hnot].
  - intros. now apply search_tsv_no_match.
Qed.

(** ** The reader shared by the two [for] statements *)

Lemma for_reader_exhausted (k : nat) (body : row -> nat -> M nat) (n : nat) (s : state) :
  reader s = [] -> for_reader k body n s = (Ok n, s).
Proof.
  intros H. destruct k as [| k]; cbn; [reflexivity | now rewrite H].
Qed.

(** The bound of [for_reader] never ends the loop of [search_tsv]: when
    the loop ends normally the reader is exhausted. *)
Lemma search_tsv_drains (wav : string) (n : nat) (s : state) :
  match search_tsv wav n s with
  | (Ok _, s') => reader s' = []
  | (Raise _, _) => True
  end.
Proof.
  unfold search_tsv, for_row_in_reader.
  remember (List.length (reader s)) as k eqn:Hk.
  revert n s Hk. induction k as [| k IH]; intros n s Hk; cbn.
  - now destruct (reader s).
  - destruct (reader s) as [| r rest] eqn:Hreader; [exact Hreader |].
    unfold bind.
    pose proof (search_row_reader wav r n (set_reader rest s)) as Hkeep.
    destruct (search_row wav r n (set_reader rest s)) as [[n' | e] s']; [| exact I].
    apply IH. cbn in Hkeep, Hk. rewrite Hkeep. now injection Hk.
Qed.

(** The [for] statement of line 103 draws the first data row from the
    reader and hands the reader, not the row, to [search_tsv], which scans
    what is left; the row drawn is not looked at. *)
Lemma process_tsv_skips_first_row (tsv : string) (hd first : row) (rest : list row)
    (n : nat) (s : state) :
  lookup tsv audio_data = Some (Text (hd :: first :: rest)) ->
  process_tsv tsv n s = search_tsv (stem tsv +:+ ".wav") n (set_reader rest s).
Proof.
  intros Hlookup. unfold process_tsv, open_reader, bind. rewrite Hlookup.
  cbn [modify next set_reader reader]. unfold for_row_in_reader at 1.
  cbn [reader set_reader List.length for_reader excerpts output_tsv calls]. unfold bind.
  change (set_reader rest (set_reader (first :: rest) (set_reader (hd :: first :: rest) s)))
    with (set_reader rest s).
  pose proof (search_tsv_drains (stem tsv +:+ ".wav") n (set_reader rest s)) as Hdrained.
  destruct (search_tsv (stem tsv +:+ ".wav") n (set_reader rest s)) as [[n' | e] s'];
    [| reflexivity].
  now apply for_reader_exhausted.
Qed.

(** ** Matches near the start of a waveform *)


(** ** Transcript names and their waveforms *)

Lemma substring_all (s : string) : String.substring 0 (String.length s) s = s.
Proof.
  induction s as [| c s IH]; cbn; [reflexivity | now rewrite IH].
Qed.

Lemma substring_split (i : nat) (s : string) :
  (i <= String.length s)%nat ->
  String.substring 0 i s +:+ String.substring i (String.length s - i) s = s.
Proof.
  revert s. induction i as [| i IH]; intros s Hi.
  - rewrite Nat.sub_0_r, substring_all. now destruct s.
  - destruct s as [| c s]; cbn in Hi; [lia |].
    cbn. f_equal. apply IH. lia.
Qed.

(** The stem and the suffix of a name put together give the name back. *)
Lemma stem_suffix_roundtrip (name : string) : stem name +:+ suffix name = name.
Proof.
  unfold stem, suffix. destruct (rfind_dot name) as [i |].
  - destruct ((0 <? i)%nat && (i <? String.length name - 1)%nat) eqn:Hi.
    + apply andb_prop in Hi. destruct Hi as [_ Hi]. apply Nat.ltb_lt in Hi.
      apply substring_split. lia.
    + clear Hi. induction name as [| c name IH]; cbn; [reflexivity | now rewrite IH].
  - induction name as [| c name IH]; cbn; [reflexivity | now rewrite IH].
Qed.

Lemma suffix_stem_nonempty (name : string) : suffix name <> "" -> stem name <> "".
Proof.
  unfold stem, suffix. destruct (rfind_dot name) as [i |]; [| congruence].
  destruct ((0 <? i)%nat && (i <? String.length name - 1)%nat) eqn:Hi; [| congruence].
  intros _. apply andb_prop in Hi. destruct Hi as [Hpos Hlt].
  apply Nat.ltb_lt in Hpos, Hlt.
  destruct i as [| i]; [lia |]. destruct name as [| c name]; cbn in *; [lia | discriminate].
Qed.

(** X2. Every transcript the run lists is an entry [base.tsv] of the
    directory with a base that is not empty; its waveform is looked for
    under [base.wav]; and two listed transcripts with the same waveform
    name are the same transcript. *)
Theorem listed_transcripts_pair_by_stem (tsv_filename : string) :
  In tsv_filename tsvs ->
  In tsv_filename (map fst audio_data) /\
  stem tsv_filename <> "" /\
  tsv_filename = stem tsv_filename +:+ ".tsv" /\
  (forall other, In other tsvs ->
     stem other +:+ ".wav" = stem tsv_filename +:+ ".wav" -> other = tsv_filename).
Proof.
  assert (Hname : forall f, In f tsvs -> f = stem f +:+ ".tsv").
  { intros f Hf. apply filter_In in Hf. destruct Hf as [_ Hf].
    apply String.eqb_eq in Hf. rewrite <- Hf. symmetry. apply stem_suffix_roundtrip. }
  intros Hin. pose proof Hin as Hlisted. apply filter_In in Hlisted.
  destruct Hlisted as [Hdir Hsuffix]. apply String.eqb_eq in Hsuffix.
  split; [exact Hdir |]. split; [apply suffix_stem_nonempty; now rewrite Hsuffix |].
  split; [now apply Hname |].
  intros other Hother Hwav. apply append_inj_l in Hwav.
  rewrite (Hname other Hother), (Hname tsv_filename Hin), Hwav. reflexivity.
Qed.

(** ** Rows of a transcript *)

(** X3. A row parses exactly when it has at least three columns of which the
    first two are numbers; the times are the numbers divided by 1000, the
    text is the third column, and further columns are ignored. *)
Theorem parse_row_ok_iff (r : row) (t0 t1 : Q) (text : string) :
  parse_row r = Ok (t0, t1, text) <->
  exists c0 c1 x0 x1 more,
    r = c0 :: c1 :: text :: more /\
    float c0 = Some x0 /\ float c1 = Some x1 /\
    t0 = seconds x0 /\ t1 = seconds x1.
Proof.
  split.
  - intros H. apply parse_row_columns in H.
    destruct H as (c0 & c1 & x0 & x1 & H0 & Hx0 & H1 & Hx1 & H2 & -> & ->).
    destruct r as [| a [| b [| c more]]]; cbn in *; try discriminate.
    injection H0 as ->. injection H1 as ->. injection H2 as ->.
    now exists c0, c1, x0, x1, more.
  - intros (c0 & c1 & x0 & x1 & more & -> & Hx0 & Hx1 & -> & ->).
    unfold parse_row, float_column, column. cbn. now rewrite Hx0, Hx1.
Qed.

(** ** The match test *)

Lemma lower_ascii_not_upper (c : ascii) : is_upper (lower_ascii c) = false.
Proof.
  destruct c as [[] [] [] [] [] [] [] []]; reflexivity.
Qed.

Lemma lower_has_no_upper (text : string) : has_upper (lower text) = false.
Proof.
  induction text as [| c text IH]; cbn; [reflexivity |].
  now rewrite lower_ascii_not_upper, IH.
Qed.

Lemma has_upper_append (a b : string) : has_upper (a +:+ b) = has_upper a || has_upper b.
Proof.
  induction a as [| c a IH]; cbn; [reflexivity | now rewrite IH, orb_assoc].
Qed.

(** X4. A vocabulary word with an ASCII capital letter matches no text: the
    text is lower-cased before the test, the word is not. *)
Theorem uppercase_word_never_matches (word text : string) :
  has_upper word = true -> contains word (lower text) = false.
Proof.
  intros Hupper. destruct (contains word (lower text)) eqn:Hin; [| reflexivity].
  apply contains_substring in Hin. destruct Hin as [before [after H]].
  pose proof (lower_has_no_upper text) as Hnone.
  rewrite H, !has_upper_append, Hupper in Hnone. cbn in Hnone.
  rewrite orb_true_r in Hnone. discriminate Hnone.
Qed.

(** X5. A word of the vocabulary is matched in a text exactly when the
    lower-cased text holds it as a substring, at a word boundary or not. *)
Theorem matched_words_are_substrings (word text : string) :
  In word (matched_words text) <->
  In word STRINGS /\ exists before after, lower text = before +:+ word +:+ after.
Proof.
  unfold matched_words. rewrite filter_In, contains_substring. reflexivity.
Qed.

(** ** What a clip holds *)

Lemma readframes_segment (w : waveform) (pos n : Z) :
  exists before after, frames w = before ++ readframes w pos n ++ after.
Proof.
  unfold readframes. destruct (n =? 0)%Z.
  - exists (frames w), []. now rewrite !app_nil_r.
  - destruct (n <? 0)%Z.
    + exists (firstn (Z.to_nat pos) (frames w)), [].
      now rewrite app_nil_r, firstn_skipn.
    + exists (firstn (Z.to_nat pos) (frames w)),
             (skipn (Z.to_nat n) (skipn (Z.to_nat pos) (frames w))).
      now rewrite !firstn_skipn.
Qed.

(** X6. A call of [extract_audio] that raises nothing writes one file, the
    destination: it has the channel count, sample width, frame rate and
    compression of the source, and its frames are one unbroken run of the
    frames of the source.  A call that raises writes no file.  Neither
    touches [output.tsv]. *)
Theorem extract_audio_keeps_format_and_order (source_file : string) (t0 t1 : Q)
    (dest_file : string) (s : state) :
  match extract_audio source_file t0 t1 dest_file s with
  | (Ok _, s') =>
      exists w clip before after,
        wave_open audio_data source_file = Ok w /\
        excerpts s' = excerpts s ++ [(dest_file, clip)] /\
        output_tsv s' = output_tsv s /\
        nchannels clip = nchannels w /\ sampwidth clip = sampwidth w /\
        framerate clip = framerate w /\
        comptype clip = comptype w /\ compname clip = compname w /\
        frames w = before ++ frames clip ++ after
  | (Raise _, s') => excerpts s' = excerpts s /\ output_tsv s' = output_tsv s
  end.
Proof.
  rewrite extract_audio_run. unfold slice, cut. cbv zeta.
  destruct (wave_open audio_data source_file) as [w | e]; [| now split].
  destruct (setpos w (frame_at (framerate w) t0)) as [pos | e]; [| now split].
  destruct (readframes_segment w pos
              (frame_at (framerate w) t1 - frame_at (framerate w) t0)) as [before [after H]].
  exists w, (with_frames w (readframes w pos
               (frame_at (framerate w) t1 - frame_at (framerate w) t0))), before, after.
  cbn. now repeat split.
Qed.

Lemma firstn_add_skipn {A} (n m : nat) (l : list A) :
  firstn (n + m) l = firstn n l ++ firstn m (skipn n l).
Proof.
  revert l. induction n as [| n IH]; intros l; [reflexivity |].
  destruct l as [| x l]; cbn; [now rewrite firstn_nil | now rewrite IH].
Qed.

Lemma frame_at_in_range (w : waveform) (t : Q) :
  (0 <= inject_Z (framerate w) * t)%Q ->
  (inject_Z (framerate w) * t <= inject_Z (nframes w))%Q ->
  (0 <= frame_at (framerate w) t <= nframes w)%Z.
Proof.
  intros Hlow Hhigh. unfold frame_at.
  split; [now apply py_int_nonneg | now apply py_int_below].
Qed.

Lemma frame_at_mono (fps : Z) (t u : Q) :
  (0 <= inject_Z fps * t)%Q -> (inject_Z fps * t <= inject_Z fps * u)%Q ->
  (frame_at fps t <= frame_at fps u)%Z.
Proof.
  intros Hlow Hle. unfold frame_at.
  rewrite (py_int_floor _ Hlow), (py_int_floor _ (Qle_trans _ _ _ Hlow Hle)).
  now apply Qfloor_resp_le.
Qed.

Lemma cut_inside (w : waveform) (t u : Q) :
  (0 <= frame_at (framerate w) t <= frame_at (framerate w) u)%Z ->
  (frame_at (framerate w) t <= nframes w)%Z ->
  frames_of (cut w t u) =
    firstn (Z.to_nat (frame_at (framerate w) u) - Z.to_nat (frame_at (framerate w) t))
      (skipn (Z.to_nat (frame_at (framerate w) t)) (frames w)).
Proof.
  intros Horder Hend. unfold cut. rewrite setpos_ok by lia. cbn.
  rewrite readframes_window by lia. f_equal. lia.
Qed.

(** X7. Windows that meet tile the source: for times [t0 <= t1 <= t2] within
    a source, the frames cut for [(t0, t1)] followed by the frames cut for
    [(t1, t2)] are the frames cut for [(t0, t2)], with no frame lost or
    doubled where the windows meet. *)
Theorem adjacent_windows_tile (w : waveform) (t0 t1 t2 : Q) :
  (0 <= inject_Z (framerate w) * t0)%Q ->
  (inject_Z (framerate w) * t0 <= inject_Z (framerate w) * t1)%Q ->
  (inject_Z (framerate w) * t1 <= inject_Z (framerate w) * t2)%Q ->
  (inject_Z (framerate w) * t2 <= inject_Z (nframes w))%Q ->
  frames_of (cut w t0 t1) ++ frames_of (cut w t1 t2) = frames_of (cut w t0 t2).
Proof.
  intros H0 H01 H12 H2.
  assert (H1 : (0 <= inject_Z (framerate w) * t1)%Q) by lra.
  pose proof (frame_at_mono _ _ _ H0 H01) as Hf01.
  pose proof (frame_at_mono _ _ _ H1 H12) as Hf12.
  assert (Hr0 : (0 <= frame_at (framerate w) t0)%Z) by (apply py_int_nonneg; exact H0).
  assert (Hr2 : (frame_at (framerate w) t2 <= nframes w)%Z)
    by (apply py_int_below; [lra | exact H2]).
  rewrite !cut_inside by lia.
  set (a := Z.to_nat (frame_at (framerate w) t0)).
  set (b := Z.to_nat (frame_at (framerate w) t1)).
  set (c := Z.to_nat (frame_at (framerate w) t2)).
  assert (Hab : (a <= b)%nat) by (unfold a, b; lia).
  assert (Hbc : (b <= c)%nat) by (unfold b, c; lia).
  replace (c - a)%nat with ((b - a) + (c - b))%nat by lia.
  rewrite firstn_add_skipn, skipn_skipn.
  replace (b - a + a)%nat with b by lia. reflexivity.
Qed.

(** ** When the retry is made *)

(** X9. On a source that opens, the retry on the window itself is made
    exactly when the first frame of the padded window is out of range,
    negative or past the end of the source.  The end of the padded window
    never decides: a match that ends within 0.2 s of the end of the source
    is cut from the padded window, shortened at the end of the source. *)
Theorem fallback_iff_padded_start_out_of_range (wav : string) (w : waveform) (t0 t1 : Q)
    (text word : string) (n : nat) (s : state) :
  wave_open audio_data wav = Ok w ->
  let dest := chunk_path n in
  let start_frame := frame_at (framerate w) (t0 - padding) in
  ((0 <= start_frame <= nframes w)%Z ->
   fst (on_match wav t0 t1 text word n s) = Ok (n + 1)%nat /\
   calls (snd (on_match wav t0 t1 text word n s)) =
     calls s ++ [padded_call wav t0 t1 dest]) /\
  ((start_frame < 0 \/ nframes w < start_frame)%Z ->
   calls (snd (on_match wav t0 t1 text word n s)) =
     calls s ++ [padded_call wav t0 t1 dest; exact_call wav t0 t1 dest]).
Proof.
  intros Hopen dest start_frame. rewrite on_match_run. cbv zeta. fold dest.
  assert (Hpadded : call_result (padded_call wav t0 t1 dest) =
                    match setpos w start_frame with
                    | Ok pos =>
                        Ok (with_frames w (readframes w pos
                              (frame_at (framerate w) (t1 + padding) - start_frame)))
                    | Raise e => Raise e
                    end).
  { unfold call_result, padded_call, slice, cut.
    cbn [source_file start_time end_time]. now rewrite Hopen. }
  rewrite Hpadded. split.
  - intros Hin. rewrite setpos_ok by exact Hin. now split.
  - intros Hout. rewrite setpos_raises by exact Hout.
    destruct (call_result (exact_call wav t0 t1 dest)); cbn; now rewrite <- app_assoc.
Qed.

(** ** What [search_tsv] writes *)

Lemma rows_for_app wav n e1 e2 :
  rows_for wav n (e1 ++ e2) = rows_for wav n e1 ++ rows_for wav (n + List.length e1) e2.
Proof.
  revert n. induction e1 as [| [[[t0 t1] text] word] e1 IH]; intros n; cbn.
  - now rewrite Nat.add_0_r.
  - rewrite IH. now rewrite Nat.add_succ_r.
Qed.

Lemma extended_by_nothing wav n s : extended_by wav n [] s s.
Proof.
  unfold extended_by. cbn. now rewrite !app_nil_r.
Qed.

Lemma extended_by_more wav n e1 e2 s s1 s2 :
  extended_by wav n e1 s s1 ->
  extended_by wav (n + List.length e1) e2 s1 s2 ->
  extended_by wav n (e1 ++ e2) s s2.
Proof.
  intros (Ho1 & He1 & Hr1) (Ho2 & He2 & Hr2). unfold extended_by.
  rewrite Ho2, Ho1, He2, He1, Hr2, Hr1, rows_for_app, length_app, seq_app, map_app.
  now rewrite <- !app_assoc.
Qed.

Lemma on_match_extends wav t0 t1 text word n s :
  sliceable wav t0 t1 = true ->
  exists s',
    on_match wav t0 t1 text word n s = (Ok (n + 1)%nat, s') /\
    extended_by wav n [(t0, t1, text, word)] s s'.
Proof.
  intros Hok. rewrite on_match_run. cbv zeta. unfold sliceable in Hok.
  unfold call_result. cbn [padded_call exact_call source_file start_time end_time].
  destruct (slice audio_data wav (t0 - padding) (t1 + padding)) as [clip | e0].
  - eexists. split; [reflexivity |]. unfold extended_by. cbn. now rewrite map_app.
  - destruct (slice audio_data wav t0 t1) as [clip | e]; [| discriminate Hok].
    eexists. split; [reflexivity |]. unfold extended_by. cbn. now rewrite map_app.
Qed.

Lemma words_loop_extends wav t0 t1 text n s (l : list string) :
  (filter (fun word => contains word (lower text)) l <> [] -> sliceable wav t0 t1 = true) ->
  let found := filter (fun word => contains word (lower text)) l in
  exists s',
    for_each l
      (fun word unique_id =>
         if contains word (lower text)
         then on_match wav t0 t1 text word unique_id
         else ret unique_id) n s = (Ok (n + List.length found)%nat, s') /\
    extended_by wav n (map (fun word => (t0, t1, text, word)) found) s s'.
Proof.
  revert n s. induction l as [| word l IH]; intros n s Hok; cbn.
  - exists s. rewrite Nat.add_0_r. split; [reflexivity | apply extended_by_nothing].
  - unfold bind. destruct (contains word (lower text)) eqn:Hin.
    + assert (Hslice : sliceable wav t0 t1 = true)
        by (apply Hok; cbn; rewrite Hin; discriminate).
      destruct (on_match_extends wav t0 t1 text word n s Hslice) as (s1 & Hrun & Hext).
      rewrite Hrun.
      destruct (IH (n + 1)%nat s1 (fun _ => Hslice)) as (s2 & Hrest & Hext2).
      exists s2. cbn [List.length map]. split.
      * rewrite Hrest. f_equal. f_equal. lia.
      * apply (extended_by_more wav n [(t0, t1, text, word)] _ s s1 s2 Hext). exact Hext2.
    + cbn. apply IH. intros Hne. apply Hok. cbn. now rewrite Hin.
Qed.

Lemma search_row_extends wav r t0 t1 text n s :
  parse_row r = Ok (t0, t1, text) ->
  (matched_words text <> [] -> sliceable wav t0 t1 = true) ->
  exists s',
    search_row wav r n s = (Ok (n + List.length (matched_words text))%nat, s') /\
    extended_by wav n (map (fun word => (t0, t1, text, word)) (matched_words text)) s s'.
Proof.
  intros Hparse Hok. unfold search_row, bind, lift. rewrite Hparse.
  now apply words_loop_extends.
Qed.

Lemma search_loop_writes_match_events wav (k : nat) :
  forall n s,
    List.length (reader s) = k -> scannable wav (reader s) ->
    exists s',
      for_reader k (search_row wav) n s =
        (Ok (n + List.length (match_events (reader s)))%nat, s') /\
      output_tsv s' = output_tsv s ++ rows_for wav n (match_events (reader s)) /\
      map fst (excerpts s') =
        map fst (excerpts s) ++
        map chunk_path (seq n (List.length (match_events (reader s)))) /\
      reader s' = [].
Proof.
  induction k as [| k IH]; intros n s Hlen Hrows.
  - destruct (reader s) as [| r rest] eqn:Hreader; [| discriminate].
    exists s. cbn. rewrite Nat.add_0_r, !app_nil_r. now repeat split.
  - destruct (reader s) as [| r rest] eqn:Hreader; [discriminate |].
    destruct (Hrows r (or_introl eq_refl)) as (t0 & t1 & text & Hparse & Hok).
    cbn [for_reader]. rewrite Hreader. unfold bind.
    destruct (search_row_extends wav r t0 t1 text n (set_reader rest s) Hparse Hok)
      as (s1 & Hrun & Ho1 & He1 & Hr1).
    rewrite Hrun. cbn in Ho1, He1, Hr1.
    destruct (IH (n + List.length (matched_words text))%nat s1) as (s2 & Hrest & Ho2 & He2 & Hr2).
    + rewrite Hr1. cbn in Hlen. now injection Hlen.
    + rewrite Hr1. intros r' Hr'. apply Hrows. now right.
    + exists s2. rewrite Hr1 in *. cbn [match_events]. rewrite Hparse.
      rewrite Hrest, Ho2, Ho1, He2, He1.
      rewrite rows_for_app, !length_app, !length_map, seq_app, map_app, <- !app_assoc.
      rewrite Nat.add_assoc. now repeat split.
Qed.

(** X10. When every row left in the reader parses and the window of every row
    that holds a vocabulary word can be cut, [search_tsv] returns
    normally with the reader exhausted, having written one clip and one
    row per match event: the events in the order of the rows and, within a
    row, of the vocabulary, numbered upward from the counter it was given,
    which it returns advanced by the number of events. *)
Theorem search_tsv_writes_match_events (wav : string) (n : nat) (s : state) :
  scannable wav (reader s) ->
  let events := match_events (reader s) in
  exists s',
    search_tsv wav n s = (Ok (n + List.length events)%nat, s') /\
    output_tsv s' = output_tsv s ++ rows_for wav n events /\
    map fst (excerpts s') =
      map fst (excerpts s) ++ map chunk_path (seq n (List.length events)) /\
    reader s' = [].
Proof.
  intros Hrows events. unfold search_tsv, for_row_in_reader.
  now apply search_loop_writes_match_events.
Qed.

(** ** Transcripts of fewer than two data rows *)

(** X1. A transcript without any row ends the run with StopIteration, raised
    by the [next] that skips the header.  A transcript of a header alone,
    or of a header and one data row, is passed without a call of
    [extract_audio], a clip or a row, and leaves the counter as it was. *)
Theorem short_transcript_yields_nothing (tsv : string) (rows : list row) (n : nat)
    (s : state) :
  lookup tsv audio_data = Some (Text rows) ->
  (List.length rows <= 2)%nat ->
  fst (process_tsv tsv n s) =
    match rows with [] => Raise StopIteration | _ :: _ => Ok n end /\
  excerpts (snd (process_tsv tsv n s)) = excerpts s /\
  output_tsv (snd (process_tsv tsv n s)) = output_tsv s /\
  calls (snd (process_tsv tsv n s)) = calls s.
Proof.
  intros Hlookup Hshort. unfold process_tsv, open_reader, bind. rewrite Hlookup.
  destruct rows as [| hd [| first [| second rest]]]; cbn in Hshort; try lia;
    cbn; now repeat split.
Qed.

(** ** What a run writes *)

Lemma process_tsv_writes_match_events (tsv : string) (rows : list row) (n : nat) (s : state) :
  lookup tsv audio_data = Some (Text rows) -> rows <> [] ->
  scannable (stem tsv +:+ ".wav") (scanned_rows tsv) ->
  exists s',
    process_tsv tsv n s = (Ok (n + List.length (match_events (scanned_rows tsv)))%nat, s') /\
    output_tsv s' =
      output_tsv s ++ rows_for (stem tsv +:+ ".wav") n (match_events (scanned_rows tsv)).
Proof.
  intros Hlookup Hrows Hscan. unfold scanned_rows in *. rewrite Hlookup in *.
  destruct rows as [| hd [| first rest]]; [contradiction | |].
  - exists (set_reader [] s). unfold process_tsv, open_reader, bind. rewrite Hlookup.
    cbn. now rewrite Nat.add_0_r, app_nil_r.
  - rewrite (process_tsv_skips_first_row tsv hd first rest n s Hlookup).
    cbn [skipn] in *. unfold search_tsv, for_row_in_reader.
    destruct (search_loop_writes_match_events (stem tsv +:+ ".wav")
                (List.length (reader (set_reader rest s))) n (set_reader rest s) eq_refl Hscan)
      as (s' & Hrun & Hout & _).
    exists s'. split; [exact Hrun | exact Hout].
Qed.

(** X11. When every listed transcript has a header and the rows after its
    first data row can be scanned, the run ends normally and
    [output.tsv] holds the header followed by one row per match event of
    those rows: transcript by transcript in the order of the listing, row
    by row, word by word, numbered 0, 1, 2, ... across the transcripts.
    The first data row of a transcript gives no row, whatever it holds. *)
Theorem main_writes_match_events_of_scanned_rows :
  (forall tsv, In tsv tsvs ->
     (exists rows, lookup tsv audio_data = Some (Text rows) /\ rows <> []) /\
     scannable (stem tsv +:+ ".wav") (scanned_rows tsv)) ->
  exists s',
    main initial = (Ok (run_count tsvs), s') /\
    output_tsv s' = header :: run_rows tsvs 0.
Proof.
  intros Hfiles. unfold main, bind, writerow, modify.
  assert (Hloop : forall l n s,
    (forall tsv, In tsv l -> In tsv tsvs) ->
    exists s',
      for_each l process_tsv n s = (Ok (n + run_count l)%nat, s') /\
      output_tsv s' = output_tsv s ++ run_rows l n).
  { induction l as [| tsv l IH]; intros n s Hl; cbn.
    - exists s. now rewrite Nat.add_0_r, app_nil_r.
    - destruct (Hfiles tsv (Hl tsv (or_introl eq_refl))) as [(rows & Hlookup & Hrows) Hscan].
      destruct (process_tsv_writes_match_events tsv rows n s Hlookup Hrows Hscan)
        as (s1 & Hrun & Hout).
      unfold bind. rewrite Hrun.
      destruct (IH (n + List.length (match_events (scanned_rows tsv)))%nat s1) as (s2 & Hrest & Hout2).
      + intros f Hf. apply Hl. now right.
      + exists s2. rewrite Hrest, Hout2, Hout, Nat.add_assoc, <- app_assoc. now split. }
  destruct (Hloop tsvs 0%nat (add_row header initial) (fun _ H => H)) as (s' & Hrun & Hout).
  exists s'. split; [exact Hrun | exact Hout].
Qed.

(** ** Every match event is attempted, padded first *)

Lemma on_match_attempt wav t0 t1 text word n s :
  on_match wav t0 t1 text word n s = attempt wav t0 t1 text word n s.
Proof.
  rewrite on_match_run. reflexivity.
Qed.

Lemma words_loop_settles wav t0 t1 text (l : list string) n s :
  for_each l
    (fun word unique_id =>
       if contains word (lower text)
       then on_match wav t0 t1 text word unique_id
       else ret unique_id) n s =
  settle_events wav
    (map (fun word => (t0, t1, text, word))
       (filter (fun word => contains word (lower text)) l)) n s.
Proof.
  revert n s. induction l as [| word l IH]; intros n s; cbn; [reflexivity |].
  unfold bind. destruct (contains word (lower text)); cbn.
  - rewrite on_match_attempt.
    destruct (attempt wav t0 t1 text word n s) as [[n' | e] s']; [apply IH | reflexivity].
  - apply IH.
Qed.

Lemma search_row_settles wav r n s :
  search_row wav r n s =
  match parse_row r with
  | Raise e => (Raise e, s)
  | Ok (t0, t1, text) =>
      settle_events wav (map (fun word => (t0, t1, text, word)) (matched_words text)) n s
  end.
Proof.
  unfold search_row, bind, lift.
  destruct (parse_row r) as [[[t0 t1] text] | e]; [apply words_loop_settles | reflexivity].
Qed.

Lemma on_disk_eq (s s0 : state) :
  on_disk s = on_disk s0 ->
  excerpts s = excerpts s0 /\ output_tsv s = output_tsv s0 /\ calls s = calls s0.
Proof.
  unfold on_disk. intros [= H1 H2 H3]. now repeat split.
Qed.

Lemma attempt_on_disk wav t0 t1 text word n s s0 :
  on_disk s = on_disk s0 ->
  fst (attempt wav t0 t1 text word n s) = fst (attempt wav t0 t1 text word n s0) /\
  on_disk (snd (attempt wav t0 t1 text word n s)) =
  on_disk (snd (attempt wav t0 t1 text word n s0)).
Proof.
  intros H. apply on_disk_eq in H. destruct H as (He & Ho & Hc). unfold attempt.
  destruct (call_result _) as [clip | e0].
  - unfold on_disk. cbn. now rewrite He, Ho, Hc.
  - destruct (call_result _) as [clip | e]; unfold on_disk; cbn; now rewrite ?He, ?Ho, Hc.
Qed.

Lemma settle_events_on_disk wav events n s s0 :
  on_disk s = on_disk s0 ->
  fst (settle_events wav events n s) = fst (settle_events wav events n s0) /\
  on_disk (snd (settle_events wav events n s)) =
  on_disk (snd (settle_events wav events n s0)).
Proof.
  revert n s s0. induction events as [| [[[t0 t1] text] word] events IH]; intros n s s0 H.
  - now split.
  - cbn. destruct (attempt_on_disk wav t0 t1 text word n s s0 H) as [Hr Hd].
    destruct (attempt wav t0 t1 text word n s) as [[n1 | e1] s1];
      destruct (attempt wav t0 t1 text word n s0) as [[n2 | e2] s2];
      cbn in Hr, Hd; try discriminate Hr.
    + injection Hr as ->. now apply IH.
    + now split.
Qed.

Lemma settle_events_reader wav events n s :
  reader (snd (settle_events wav events n s)) = reader s.
Proof.
  revert n s. induction events as [| [[[t0 t1] text] word] events IH]; intros n s;
    [reflexivity |].
  cbn. pose proof (on_match_reader wav t0 t1 text word n s) as Hkeep.
  rewrite on_match_attempt in Hkeep.
  destruct (attempt wav t0 t1 text word n s) as [[n1 | e1] s1]; cbn in Hkeep;
    [now rewrite IH | exact Hkeep].
Qed.

Lemma search_loop_settles wav (k : nat) :
  forall n s s0,
    List.length (reader s) = k -> on_disk s = on_disk s0 ->
    fst (for_reader k (search_row wav) n s) = fst (settle_rows wav (reader s) n s0) /\
    on_disk (snd (for_reader k (search_row wav) n s)) =
    on_disk (snd (settle_rows wav (reader s) n s0)).
Proof.
  induction k as [| k IH]; intros n s s0 Hlen Hdisk.
  - destruct (reader s) as [| r rest]; [now split | discriminate].
  - destruct (reader s) as [| r rest] eqn:Hreader; [discriminate |].
    cbn [for_reader settle_rows]. rewrite Hreader. unfold bind.
    rewrite search_row_settles.
    destruct (parse_row r) as [[[t0 t1] text] | e]; [| now split].
    set (events := map (fun word => (t0, t1, text, word)) (matched_words text)).
    assert (Hdisk' : on_disk (set_reader rest s) = on_disk s0) by exact Hdisk.
    destruct (settle_events_on_disk wav events n _ _ Hdisk') as [Hr Hd].
    pose proof (settle_events_reader wav events n (set_reader rest s)) as Hkeep.
    destruct (settle_events wav events n (set_reader rest s)) as [[n1 | e1] s1];
      destruct (settle_events wav events n s0) as [[n2 | e2] s2];
      cbn in Hr, Hd, Hkeep; try discriminate Hr.
    + injection Hr as ->.
      specialize (IH n2 s1 s2). rewrite Hkeep in IH. apply IH; [| exact Hd].
      cbn in Hlen. now injection Hlen.
    + now split.
Qed.

Lemma process_tsv_settles tsv n s s0 :
  on_disk s = on_disk s0 ->
  fst (process_tsv tsv n s) = fst (settle_files [tsv] n s0) /\
  on_disk (snd (process_tsv tsv n s)) = on_disk (snd (settle_files [tsv] n s0)).
Proof.
  intros Hdisk. cbn [settle_files]. unfold scanned_rows.
  destruct (lookup tsv audio_data) as [[rows | w] |] eqn:Hlookup.
  - destruct rows as [| hd [| first rest]].
    + unfold process_tsv, open_reader, bind. rewrite Hlookup. now split.
    + unfold process_tsv, open_reader, bind. rewrite Hlookup. now split.
    + rewrite (process_tsv_skips_first_row tsv hd first rest n s Hlookup).
      cbn [skipn]. unfold search_tsv, for_row_in_reader.
      destruct (search_loop_settles (stem tsv +:+ ".wav")
                  (List.length (reader (set_reader rest s))) n (set_reader rest s) s0
                  eq_refl Hdisk) as [Hr Hd].
      cbn [reader set_reader] in Hr, Hd |- *.
      destruct (for_reader (List.length rest) (search_row (stem tsv +:+ ".wav")) n
                  (set_reader rest s)) as [[n1 | e1] s1];
        destruct (settle_rows (stem tsv +:+ ".wav") rest n s0) as [[n2 | e2] s2];
        cbn in Hr, Hd |- *; try discriminate Hr; now split.
  - unfold process_tsv, open_reader, bind. rewrite Hlookup. now split.
  - unfold process_tsv, open_reader, bind. rewrite Hlookup. now split.
Qed.

Lemma settle_files_cons tsv files n s :
  settle_files (tsv :: files) n s =
  match settle_files [tsv] n s with
  | (Ok n', s') => settle_files files n' s'
  | (Raise e, s') => (Raise e, s')
  end.
Proof.
  cbn. destruct (lookup tsv audio_data) as [[[| hd rows] | w] |]; try reflexivity.
  destruct (settle_rows _ _ n s) as [[n' | e] s']; reflexivity.
Qed.

Lemma files_loop_settles (files : list string) :
  forall n s s0,
    on_disk s = on_disk s0 ->
    fst (for_each files process_tsv n s) = fst (settle_files files n s0) /\
    on_disk (snd (for_each files process_tsv n s)) = on_disk (snd (settle_files files n s0)).
Proof.
  induction files as [| tsv files IH]; intros n s s0 Hdisk; [now split |].
  rewrite settle_files_cons. cbn [for_each]. unfold bind.
  destruct (process_tsv_settles tsv n s s0 Hdisk) as [Hr Hd].
  destruct (process_tsv tsv n s) as [[n1 | e1] s1];
    destruct (settle_files [tsv] n s0) as [[n2 | e2] s2];
    cbn in Hr, Hd |- *; try discriminate Hr.
  - injection Hr as ->. now apply IH.
  - now split.
Qed.

(** C8. Every match event is settled by [attempt]: first the call of
    [extract_audio] on the window widened by 0.2 s on both sides; if it
    succeeds no other call is made for the event; if it fails, exactly one
    call on the window itself follows; if that one fails too, its
    exception is the outcome, with no clip and no row written.  A run
    makes exactly these calls, for the match events of the rows it scans
    in their order, and stops at the first event whose retry fails: the
    failed retry is the last call of the run, and its exception is what
    the run raises. *)
Theorem padded_attempt_then_single_retry :
  (forall wav t0 t1 text word n s,
     on_match wav t0 t1 text word n s = attempt wav t0 t1 text word n s) /\
  (fst (main initial) = fst (settle_files tsvs 0 (add_row header initial)) /\
   excerpts (snd (main initial)) =
     excerpts (snd (settle_files tsvs 0 (add_row header initial))) /\
   output_tsv (snd (main initial)) =
     output_tsv (snd (settle_files tsvs 0 (add_row header initial))) /\
   calls (snd (main initial)) =
     calls (snd (settle_files tsvs 0 (add_row header initial)))) /\
  (let (r, s) := main initial in
   match r with
   | Ok _ => journal (calls s) (excerpts s) (output_tsv s)
   | Raise e => journal (calls s) (excerpts s) (output_tsv s) \/ failed_retry e s
   end) /\
  (forall wav t0 t1 dest,
     (start_time (padded_call wav t0 t1 dest) == t0 - 2 / 10)%Q /\
     (end_time (padded_call wav t0 t1 dest) == t1 + 2 / 10)%Q /\
     start_time (exact_call wav t0 t1 dest) = t0 /\
     end_time (exact_call wav t0 t1 dest) = t1).
Proof.
  split; [exact on_match_attempt |]. split; [| split].
  - unfold main, bind, writerow, modify.
    destruct (files_loop_settles tsvs 0%nat (add_row header initial)
                (add_row header initial) eq_refl) as [Hr Hd].
    apply on_disk_eq in Hd. now repeat split.
  - pose proof (main_inv
      (fun _ s => journal (calls s) (excerpts s) (output_tsv s))
      (fun e s => journal (calls s) (excerpts s) (output_tsv s) \/ failed_retry e s)) as H.
    destruct (main initial) as [[n | e] s]; apply H; try (now intros; auto);
      try (intros; apply journal_next); apply journal_start.
  - intros wav t0 t1 dest. cbn. unfold padding. repeat split; reflexivity.
Qed.

End Script.

(** ** The scenario of one transcript row *)

(** C2 (amended). With the vocabulary ["test"], when the data row
    (1000, 2000, "this is a test") is scanned against a five-second
    waveform with the counter at 0, exactly one clip is written, named
    from identifier 0 and holding the frames of the padded window from
    0.8 s to 2.2 s; the one row written records the clip path, the parent
    waveform path, the word "test", start time 1.0, end time 2.0 (the
    times of the transcript, not the padded ones) and the text. *)
Theorem scanned_test_row_gives_chunk_0 (float : string -> option Q)
    (AUDIO_EXCERPTS : string) (audio_data : directory) (wav : string) (w : waveform)
    (s : state) :
  float "1000" = Some (inject_Z 1000) ->
  float "2000" = Some (inject_Z 2000) ->
  wave_open audio_data wav = Ok w ->
  (0 < framerate w)%Z ->
  nframes w = (5 * framerate w)%Z ->
  reader s = [["1000"; "2000"; "this is a test"]] ->
  let fps := framerate w in
  let dest := chunk_path AUDIO_EXCERPTS 0 in
  let first_frame := (fps * 8 / 10)%Z in
  let last_frame := (fps * 22 / 10)%Z in
  let clip :=
    with_frames w (firstn (Z.to_nat (last_frame - first_frame))
                     (skipn (Z.to_nat first_frame) (frames w))) in
  search_tsv float AUDIO_EXCERPTS ["test"] audio_data wav 0 s =
    (Ok 1%nat,
     add_row [Str dest; Str wav; Str "test"; Num 1; Num 2; Str "this is a test"]
       (add_excerpt dest clip
          (add_call (padded_call wav 1 2 dest) (set_reader [] s)))) /\
  nframes clip = (last_frame - first_frame)%Z.
Proof.
  intros H1000 H2000 Hopen Hfps Hlen Hreader fps dest first_frame last_frame clip.
  assert (Hfirst : frame_at fps (Qminus 1 padding) = first_frame).
  { unfold frame_at, py_int. cbn. rewrite Z.quot_div_nonneg by lia. reflexivity. }
  assert (Hlast : frame_at fps (Qplus 2 padding) = last_frame).
  { unfold frame_at, py_int. cbn. rewrite Z.quot_div_nonneg by lia. reflexivity. }
  assert (Hbounds : (0 <= first_frame <= last_frame)%Z /\ (last_frame <= nframes w)%Z).
  { unfold first_frame, last_frame. rewrite Hlen. fold fps.
    Z.to_euclidean_division_equations. lia. }
  split.
  - unfold search_tsv, for_row_in_reader. rewrite Hreader.
    cbn [List.length for_reader]. rewrite Hreader. unfold bind at 1.
    unfold search_row, bind at 1, lift, parse_row, float_column, column.
    cbn [nth_error]. rewrite H1000, H2000.
    change (seconds (inject_Z 1000)) with 1%Q. change (seconds (inject_Z 2000)) with 2%Q.
    cbn [for_each].
    replace (contains "test" (lower "this is a test")) with true by reflexivity.
    unfold bind at 1. rewrite on_match_run. cbv zeta.
    assert (Hpadded : call_result audio_data (padded_call wav 1 2 dest) = Ok clip).
    { unfold call_result, padded_call, slice, cut. cbn [source_file start_time end_time].
      rewrite Hopen. fold fps. rewrite Hfirst, Hlast.
      rewrite setpos_ok by lia. rewrite readframes_window by lia. reflexivity. }
    fold dest. rewrite Hpadded. reflexivity.
  - unfold nframes, clip. cbn [frames with_frames].
    rewrite firstn_length_le; [lia |].
    rewrite length_skipn. unfold nframes in *. lia.
Qed.

Lemma scanned_test_row_witness :
  let s := set_reader [["1000"; "2000"; "this is a test"]] initial in
  fst (search_tsv decimal excerpts_dir ["test"] one_row_dir "talk.wav" 0 s) = Ok 1%nat /\
  output_tsv (snd (search_tsv decimal excerpts_dir ["test"] one_row_dir "talk.wav" 0 s)) =
    [[Str "/home/user/audio_excerpts/chunk_0.wav"; Str "talk.wav"; Str "test";
      Num 1; Num 2; Str "this is a test"]].
Proof.
  intros s.
  destruct (scanned_test_row_gives_chunk_0 decimal excerpts_dir one_row_dir "talk.wav"
              five_seconds s) as [Hrun _];
    [reflexivity | reflexivity | reflexivity | reflexivity | vm_compute; reflexivity
    | reflexivity |].
  rewrite Hrun. split; reflexivity.
Defined.

(** The run of the scenario of C2 as the specification words it: the one
    data row is drawn by the [for] statement of line 103 and never
    scanned, so that no clip and no row is written; and when the row is
    scanned, the row written holds 1 and 2, not 0.8 and 2.2. *)
Lemma scenario_run_differs :
  let run := main decimal excerpts_dir ["test"] one_row_dir initial in
  let scanned :=
    search_tsv decimal excerpts_dir ["test"] one_row_dir "talk.wav" 0
      (set_reader [["1000"; "2000"; "this is a test"]] initial) in
  let dest := chunk_path excerpts_dir 0 in
  fst run = Ok 0%nat /\
  excerpts (snd run) = [] /\
  output_tsv (snd run) = [header] /\
  output_tsv (snd scanned) =
    [metadata_row dest "talk.wav" "test" 1 2 "this is a test"] /\
  output_tsv (snd scanned) <>
    [metadata_row dest "talk.wav" "test" (8 # 10) (22 # 10) "this is a test"].
Proof.
  vm_compute. repeat split; discriminate.
Qed.

(** ** Rows that are never scanned *)

(** C1 (the code departs from the claim). The transcript has a header and
    two data rows that both hold the word "test".  The run writes one clip
    and one row, for the second data row: the first data row is drawn by
    the [for] statement of line 103 and is never parsed or scanned. *)
Theorem first_data_row_is_not_scanned :
  let run := main decimal excerpts_dir ["test"] both_rows_match_dir initial in
  let dest := chunk_path excerpts_dir 0 in
  contains "test" (lower "test one") = true /\
  contains "test" (lower "this is a test") = true /\
  fst run = Ok 1%nat /\
  map fst (excerpts (snd run)) = [dest] /\
  output_tsv (snd run) =
    [header; metadata_row dest "talk.wav" "test" 1 2 "this is a test"].
Proof.
  vm_compute. repeat split; reflexivity.
Qed.

(** ** The slicer on concrete waveforms *)

Lemma frame_offsets_truncate_witness :
  let note := [("note.wav", Wave one_second)] in
  let t0 := binary64_seconds 150 in
  let t1 := binary64_seconds 250 in
  let chunk_data := firstn (Z.to_nat (2756 - 1653)) (skipn (Z.to_nat 1653) (frames one_second)) in
  frame_at_binary64 11025 t0 = Ok 1653%Z /\
  frame_at_binary64 11025 t1 = Ok 2756%Z /\
  extract_audio_binary64 note "note.wav" t0 t1 "clip.wav" initial =
    (Ok tt, add_excerpt "clip.wav" (with_frames one_second chunk_data) initial) /\
  Z.of_nat (List.length chunk_data) = 1103%Z.
Proof.
  intros note t0 t1 chunk_data.
  destruct (frame_offsets_truncate note "note.wav" one_second t0 t1
              (7273269417738240 # 4398046511104) (6061057848115200 # 2199023255552)
              "clip.wav" initial eq_refl)
    as (start_frame & end_frame & Hstart & Hend & _ & _ & Hclip);
    [vm_compute; reflexivity | vm_compute; reflexivity |].
  assert (H0 : start_frame = 1653%Z)
    by (assert (H : Ok start_frame = Ok 1653%Z) by (rewrite <- Hstart; vm_compute; reflexivity);
        now injection H).
  assert (H1 : end_frame = 2756%Z)
    by (assert (H : Ok end_frame = Ok 2756%Z) by (rewrite <- Hend; vm_compute; reflexivity);
        now injection H).
  subst start_frame end_frame.
  split; [exact Hstart |]. split; [exact Hend |].
  apply Hclip; vm_compute; repeat split; discriminate.
Defined.

(** At 11025 frames per second the time 150 ms is frame 1653.75, in
    binary64 as exactly: the script starts the clip at frame 1653 and
    takes 1103 frames, where offsets rounded to the nearest frame are 1654
    and 2756, for 1102 frames. *)
Lemma frame_offset_is_not_rounded :
  let note := [("note.wav", Wave one_second)] in
  let t0 := binary64_seconds 150 in
  let t1 := binary64_seconds 250 in
  let product t := PrimFloat.mul (binary64_of_int (framerate one_second)) t in
  let clips := excerpts (snd (extract_audio_binary64 note "note.wav" t0 t1 "clip.wav" initial)) in
  frame_at_binary64 (framerate one_second) t0 = Ok 1653%Z /\
  option_map round_half_even (binary64_value (product t0)) = Some 1654%Z /\
  frame_at_binary64 (framerate one_second) t1 = Ok 2756%Z /\
  option_map round_half_even (binary64_value (product t1)) = Some 2756%Z /\
  map (fun clip => (fst clip, hd 0%Z (frames (snd clip)), nframes (snd clip))) clips =
    [("clip.wav", 1653%Z, 1103%Z)] /\
  (2756 - 1654 = 1102)%Z.
Proof.
  vm_compute. repeat split; reflexivity.
Qed.

Lemma slicer_fails_iff_witness :
  fst (extract_audio one_row_dir "talk.wav" (-1 # 10) (1 # 2) "clip.wav" initial) =
    Raise wave_Error /\
  fst (extract_audio one_row_dir "talk.wav" 6 7 "clip.wav" initial) = Raise wave_Error /\
  fst (extract_audio one_row_dir "talk.wav" 2 1 "clip.wav" initial) = Ok tt.
Proof.
  split; [| split].
  - apply (slicer_fails_iff_start_out_of_range one_row_dir "talk.wav" five_seconds
             (-1 # 10) (1 # 2) "clip.wav" initial eq_refl).
    left. reflexivity.
  - apply (slicer_fails_iff_start_out_of_range one_row_dir "talk.wav" five_seconds
             6 7 "clip.wav" initial eq_refl).
    right. reflexivity.
  - destruct (slicer_fails_iff_start_out_of_range one_row_dir "talk.wav" five_seconds
                2 1 "clip.wav" initial eq_refl) as [_ Hin].
    destruct Hin as [Hrun _]; [| now rewrite Hrun].
    vm_compute. intros [H | H]; discriminate H.
Defined.

(** A window that ends before it starts has a negative frame count; the
    call raises nothing and writes the three seconds from the start of the
    window to the end of the source, where the slice of the
    specification fails. *)
Lemma backwards_window_is_no_failure :
  (frame_at (framerate five_seconds) 1 - frame_at (framerate five_seconds) 2 <= 0)%Z /\
  (0 <= frame_at (framerate five_seconds) 2 <= nframes five_seconds)%Z /\
  fst (extract_audio one_row_dir "talk.wav" 2 1 "clip.wav" initial) = Ok tt /\
  Z.of_nat (List.length (frames_of (slice one_row_dir "talk.wav" 2 1))) = 24000%Z /\
  spec_slice five_seconds 2 1 = Raise wave_Error.
Proof.
  vm_compute. repeat split; discriminate.
Qed.

Lemma slice_past_end_witness :
  fst (extract_audio one_row_dir "talk.wav" 4 6 "clip.wav" initial) = Ok tt /\
  Z.of_nat (List.length (frames_of (slice one_row_dir "talk.wav" 4 6))) = 8000%Z /\
  (frame_at (framerate five_seconds) 6 - frame_at (framerate five_seconds) 4 = 16000)%Z.
Proof.
  destruct (slice_past_end_is_clamped one_row_dir "talk.wav" five_seconds 4 6 "clip.wav"
              initial eq_refl) as (Hrun & Hlen & _).
  - vm_compute. split; discriminate.
  - reflexivity.
  - rewrite Hrun. split; [reflexivity |]. split; vm_compute; reflexivity.
Defined.

(** ** Matches near the start, on concrete transcripts *)



(** ** Transcripts without a waveform *)

Lemma missing_waveform_witness :
  wave_open lone_transcript_dir "talk.wav" = Raise FileNotFoundError /\
  fst (on_match excerpts_dir lone_transcript_dir "talk.wav" 1 2 "this is a test" "test" 0
         initial) = Raise FileNotFoundError.
Proof.
  split; [reflexivity |].
  destruct (missing_waveform_fatal_at_first_match decimal excerpts_dir ["test"]
              lone_transcript_dir "talk.wav" eq_refl) as (Hmatch & _ & _).
  now rewrite Hmatch.
Defined.

(** The transcript [talk.tsv] has no waveform [talk.wav]; none of its rows
    holds the word, and the run ends normally with the header as the only
    row written. *)
Lemma transcript_without_waveform_is_passed_over :
  tsvs lone_transcript_dir = ["talk.tsv"] /\
  lookup (stem "talk.tsv" +:+ ".wav") lone_transcript_dir = None /\
  main decimal excerpts_dir ["test"] lone_transcript_dir initial =
    (Ok 0%nat, add_row header initial).
Proof.
  vm_compute. repeat split; reflexivity.
Qed.

(** ** Two transcripts in one run *)

(** The counter runs on from the first transcript to the second. *)
Example two_transcripts_share_the_counter :
  let run := main decimal excerpts_dir ["test"] two_files_dir initial in
  fst run = Ok 2%nat /\
  map fst (excerpts (snd run)) = [chunk_path excerpts_dir 0; chunk_path excerpts_dir 1] /\
  output_tsv (snd run) =
    [header;
     metadata_row (chunk_path excerpts_dir 0) "a.wav" "test" 1 2 "this is a test";
     metadata_row (chunk_path excerpts_dir 1) "b.wav" "test" (5 # 2) 3 "Another TEST"].
Proof.
  vm_compute. repeat split; reflexivity.
Qed.

(** A vocabulary word that occurs nowhere leaves the header alone. *)
Example absent_word_writes_the_header_only :
  main decimal excerpts_dir ["zebra"] two_files_dir initial = (Ok 0%nat, add_row header initial).
Proof.
  vm_compute. reflexivity.
Qed.

(** ** The word list *)

Lemma rstrip_idempotent (line : string) : rstrip (rstrip line) = rstrip line.
Proof.
  induction line as [| c line IH]; cbn; [reflexivity |].
  destruct (rstrip line) as [| d kept] eqn:Hkept.
  - destruct (is_space c) eqn:Hc; cbn; [reflexivity | now rewrite Hc].
  - cbn [rstrip] in *. now rewrite IH.
Qed.

Lemma rstrip_keeps_characters (line : string) (c : ascii) :
  In c (list_ascii_of_string (rstrip line)) -> In c (list_ascii_of_string line).
Proof.
  induction line as [| a line IH]; cbn; [auto |].
  destruct (rstrip line) as [| d kept].
  - destruct (is_space a); cbn; [intros [] | intros [-> | []]; now left].
  - cbn. intros [-> | H]; [now left | right; now apply IH].
Qed.

Lemma rstrip_drops_last_space (line : string) (c : ascii) :
  is_space c = true -> rstrip (line +:+ String c EmptyString) = rstrip line.
Proof.
  intros Hc. induction line as [| a line IH]; cbn; [now rewrite Hc | now rewrite IH].
Qed.

Lemma readlines_shape (content line : string) :
  In line (readlines content) ->
  exists body,
    ~ In newline (list_ascii_of_string body) /\
    (line = body \/ line = body +:+ String newline EmptyString).
Proof.
  revert line. induction content as [| c content IH]; intros line; cbn; [intros [] |].
  destruct (Ascii.eqb_spec c newline) as [-> | Hc].
  - intros [<- | Hin]; [| now apply IH].
    exists EmptyString. split; [intros [] | now right].
  - destruct (readlines content) as [| first others].
    + intros [<- | []]. exists (String c EmptyString).
      split; [| now left]. cbn. intros [H | []]. now apply Hc.
    + intros [<- | Hin]; [| apply IH; now right].
      destruct (IH first (or_introl eq_refl)) as (body & Hbody & Hline).
      exists (String c body). split.
      * cbn. intros [H | H]; [now apply Hc | now apply Hbody].
      * destruct Hline as [-> | ->]; [now left | now right].
Qed.

(** X12. Every target word read from [word_list.txt] is free of line breaks
    and of trailing white space: stripping it again changes nothing. *)
Theorem lines_are_stripped (word_list_txt word : string) :
  In word (lines word_list_txt) ->
  rstrip word = word /\ ~ In newline (list_ascii_of_string word).
Proof.
  unfold lines. intros Hin. apply in_map_iff in Hin. destruct Hin as (line & <- & Hline).
  split; [apply rstrip_idempotent |].
  destruct (readlines_shape _ _ Hline) as (body & Hbody & [-> | ->]).
  - intros H. now apply Hbody, rstrip_keeps_characters.
  - rewrite rstrip_drops_last_space by reflexivity.
    intros H. now apply Hbody, rstrip_keeps_characters.
Qed.

Lemma rstrip_blank (line : string) : rstrip line = "" <-> all_space line = true.
Proof.
  induction line as [| c line IH]; cbn; [now split |].
  destruct (rstrip line) as [| d kept].
  - destruct (is_space c); cbn.
    + split; [intros _; now apply IH | reflexivity].
    + split; discriminate.
  - split; [discriminate |]. intros H. apply andb_prop in H. destruct H as [_ H].
    apply IH in H. discriminate H.
Qed.

(** X13. A line of [word_list.txt] that holds white space only, such as an
    empty line, becomes the empty target word; the empty word is found in
    every text, so with such a line every row that parses gives a match
    event for it. *)
Theorem blank_line_matches_every_row (float : string -> option Q)
    (word_list_txt line : string) (r : row) (t0 t1 : Q) (text : string) :
  In line (readlines word_list_txt) ->
  all_space line = true ->
  parse_row float r = Ok (t0, t1, text) ->
  rstrip line = "" /\
  In "" (lines word_list_txt) /\
  In "" (matched_words (lines word_list_txt) text) /\
  In (t0, t1, text, "") (match_events float (lines word_list_txt) [r]).
Proof.
  intros Hline Hblank Hparse. apply rstrip_blank in Hblank.
  assert (Hword : In "" (lines word_list_txt))
    by (unfold lines; apply in_map_iff; now exists line).
  assert (Hfound : In "" (matched_words (lines word_list_txt) text)).
  { unfold matched_words. apply filter_In. split; [exact Hword | now destruct (lower text)]. }
  split; [exact Hblank |]. split; [exact Hword |]. split; [exact Hfound |].
  cbn. rewrite Hparse, app_nil_r. apply in_map_iff. now exists "".
Qed.

(** ** The further properties on concrete inputs *)

Lemma short_transcript_witness :
  fst (process_tsv decimal excerpts_dir ["test"] one_row_dir "talk.tsv" 0 initial) = Ok 0%nat /\
  excerpts (snd (process_tsv decimal excerpts_dir ["test"] one_row_dir "talk.tsv" 0 initial))
    = [].
Proof.
  destruct (short_transcript_yields_nothing decimal excerpts_dir ["test"] one_row_dir
              "talk.tsv" [tsv_header; ["1000"; "2000"; "this is a test"]] 0%nat initial
              eq_refl) as (Hresult & Hclips & _).
  - cbn. repeat constructor.
  - split; [exact Hresult | exact Hclips].
Defined.

Lemma listed_transcripts_witness :
  In "a.tsv" (tsvs two_files_dir) /\
  stem "a.tsv" <> "" /\ "a.tsv" = stem "a.tsv" +:+ ".tsv".
Proof.
  assert (Hin : In "a.tsv" (tsvs two_files_dir)) by (vm_compute; now left).
  destruct (listed_transcripts_pair_by_stem two_files_dir "a.tsv" Hin) as (_ & Hne & Heq & _).
  now repeat split.
Defined.

Lemma adjacent_windows_witness :
  frames_of (cut five_seconds 1 2) ++ frames_of (cut five_seconds 2 3) =
  frames_of (cut five_seconds 1 3).
Proof.
  apply (adjacent_windows_tile five_seconds 1 2 3); vm_compute; discriminate.
Defined.

Lemma fallback_iff_witness :
  let dest := chunk_path excerpts_dir 0 in
  fst (on_match excerpts_dir one_row_dir "talk.wav" (45 # 10) (49 # 10) "the last test" "test"
         0 initial) = Ok 1%nat /\
  calls (snd (on_match excerpts_dir one_row_dir "talk.wav" (45 # 10) (49 # 10) "the last test"
                "test" 0 initial)) =
    [padded_call "talk.wav" (45 # 10) (49 # 10) dest].
Proof.
  intros dest.
  destruct (fallback_iff_padded_start_out_of_range excerpts_dir one_row_dir "talk.wav"
              five_seconds (45 # 10) (49 # 10) "the last test" "test" 0%nat initial eq_refl)
    as [Hin _].
  apply Hin. vm_compute. split; discriminate.
Defined.

Lemma search_tsv_writes_witness :
  let s := set_reader [["1000"; "2000"; "this is a test"]; ["2500"; "3000"; "nothing"]]
             initial in
  let dest := chunk_path excerpts_dir in
  exists s',
    search_tsv decimal excerpts_dir ["test"; "is"] one_row_dir "talk.wav" 0 s = (Ok 2%nat, s') /\
    output_tsv s' =
      [metadata_row (dest 0%nat) "talk.wav" "test" 1 2 "this is a test";
       metadata_row (dest 1%nat) "talk.wav" "is" 1 2 "this is a test"].
Proof.
  intros s dest.
  destruct (search_tsv_writes_match_events decimal excerpts_dir ["test"; "is"] one_row_dir
              "talk.wav" 0%nat s) as (s' & Hrun & Hout & _).
  - intros r [<- | [<- | []]].
    + exists 1%Q, 2%Q, "this is a test". split; [reflexivity |].
      intros _. vm_compute. reflexivity.
    + exists (5 # 2)%Q, 3%Q, "nothing". split; [reflexivity |].
      intros _. vm_compute. reflexivity.
  - exists s'. split; [exact Hrun | exact Hout].
Defined.

Lemma uppercase_word_witness : contains "Test" (lower "This is a Test") = false.
Proof.
  apply uppercase_word_never_matches. reflexivity.
Defined.

Lemma lines_are_stripped_witness :
  In "test" (lines ("test  " +:+ String newline "word" +:+ String newline "")) /\
  rstrip "test" = "test".
Proof.
  assert (Hin : In "test" (lines ("test  " +:+ String newline "word" +:+ String newline "")))
    by (vm_compute; now left).
  split; [exact Hin |].
  apply (lines_are_stripped _ _ Hin).
Defined.

Lemma blank_line_witness :
  let word_list_txt := "test" +:+ String newline (String newline "word") in
  In (1%Q, 2%Q, "no word of the list", "")
     (match_events decimal (lines word_list_txt) [["1000"; "2000"; "no word of the list"]]).
Proof.
  intros word_list_txt.
  destruct (blank_line_matches_every_row decimal word_list_txt (String newline "")
              ["1000"; "2000"; "no word of the list"] 1%Q 2%Q "no word of the list")
    as (_ & _ & _ & Hevent); [vm_compute; right; now left | reflexivity | reflexivity |].
  exact Hevent.
Defined.

Lemma main_writes_witness :
  exists s',
    main decimal excerpts_dir ["test"] two_files_dir initial = (Ok 2%nat, s') /\
    output_tsv s' =
      [header;
       metadata_row (chunk_path excerpts_dir 0) "a.wav" "test" 1 2 "this is a test";
       metadata_row (chunk_path excerpts_dir 1) "b.wav" "test" (5 # 2) 3 "Another TEST"].
Proof.
  destruct (main_writes_match_events_of_scanned_rows decimal excerpts_dir ["test"]
              two_files_dir) as (s' & Hrun & Hout).
  - intros tsv [<- | [<- | []]].
    + split; [eexists; split; [reflexivity | discriminate] |].
      intros r [<- | []]. exists 1%Q, 2%Q, "this is a test".
      split; [reflexivity | intros _; vm_compute; reflexivity].
    + split; [eexists; split; [reflexivity | discriminate] |].
      intros r [<- | []]. exists (5 # 2)%Q, 3%Q, "Another TEST".
      split; [reflexivity | intros _; vm_compute; reflexivity].
  - exists s'. split; [exact Hrun | exact Hout].
Defined.

(** ** Exact times and binary64 times *)

(** Where the exact product is a whole number of frames the binary64
    product can fall just below it: for a row that starts at 300 ms, at
    8000 frames per second, the padded window starts at frame 800 with
    exact times and at frame 799 in binary64. *)
Example padded_start_of_300_ms :
  let padding64 := PrimFloat.div (binary64_of_int 2) (binary64_of_int 10) in
  frame_at 8000 (Qminus (seconds (inject_Z 300)) padding) = 800%Z /\
  frame_at_binary64 8000 (PrimFloat.sub (binary64_seconds 300) padding64) = Ok 799%Z.
Proof.
  vm_compute. split; reflexivity.
Qed.
